(** * invoker: the Tasks orchestrator (Run / Race / Repeat / Add / report)

    A shallow embedding of the Go package [invoker].  The orchestrator of
    the source is a struct guarded by one mutex: [Add], the admission part
    of [do] and [report] each run under the lock from start to end, so each
    of them is one atomic transition of the struct.  A transition is a pure
    function from the struct before to the struct after, together with the
    list of the effects it performs on the outside world, in program order:
    goroutines it starts, calls of the cancel function, sends on the [done]
    channel.

    Two versions of the orchestrator file are in the repository.  The
    development follows the one that catches panics and knows [ErrNoTasks];
    the places where the other version differs are in [Module V1]. *)

From Stdlib Require Import String ZArith List Bool Lia Permutation.
Import ListNotations.
Local Open Scope Z_scope.

(** ** Go's [int]

    [running] is a Go [int]: 64 bits, two's complement, on the platforms
    the Dockerfile builds for.  [+=] and [-=] wrap around. *)

Definition int_min : Z := - 2 ^ 63.
Definition int_max : Z := 2 ^ 63 - 1.

Definition wrap (z : Z) : Z := (z + 2 ^ 63) mod 2 ^ 64 - 2 ^ 63.

Definition in_int (z : Z) : Prop := int_min <= z <= int_max.

(** [len] of a slice; a slice never has more than [int_max] elements. *)
Definition len {A : Type} (l : list A) : Z := Z.of_nat (length l).

(** ** Values *)

(** [interface{}], the type of a panic payload: [None] is the nil
    interface, [Some v] a boxed value (shown by its printed form). *)
Definition any : Type := option string.

(** The concrete error values the package creates or passes on. *)
Inductive err_value : Type :=
| ErrRunning                                   (* "already running" *)
| ErrFinished                                  (* "finished execution" *)
| ErrNoTasks                                   (* "no tasks to execute" *)
| ErrPanic (p : any) (stack : list Byte.byte)  (* struct ErrPanic {p; stack} *)
| Canceled                                     (* context.Canceled *)
| DeadlineExceeded                             (* context.DeadlineExceeded *)
| Errorf (msg : string).                       (* an error made by a task *)

(** Go's [error]: [None] is nil, a success. *)
Definition error : Type := option err_value.

Definition is_nil (e : error) : bool :=
  match e with None => true | Some _ => false end.

(** [context.Context] values, as far as the package builds them. *)
Inductive Context : Type :=
| Background
| WithCancel (parent : Context).

(** A [Task] is a Go function value [func(ctx) error].  The orchestrator
    never looks inside one: it stores tasks, starts them and is told their
    outcome.  A task is therefore represented by its identity: the two
    package-level tasks the source names, and the caller's closures. *)
Inductive Task : Type :=
| Wait
| Noop
| Func (id : nat).

Inductive mode : Type :=
| modeInit
| modeRun
| modeRace
| modeRepeat
| modeDone.

Definition mode_eqb (a b : mode) : bool :=
  match a, b with
  | modeInit, modeInit | modeRun, modeRun | modeRace, modeRace
  | modeRepeat, modeRepeat | modeDone, modeDone => true
  | _, _ => false
  end.

(** The handles stored at admission. [cancel] cancels the derived context;
    [done] is [make(chan error, 1)]. *)
Inductive CancelFunc : Type := CancelOf (c : Context).
Inductive Chan : Type := MakeChan (capacity : nat).

(** [type Tasks struct] without its mutex: every function below is the
    body of a critical section. *)
Record Tasks : Type := mkTasks {
  ts_mode : mode;
  ts_pending : list Task;
  ts_running : Z;
  ts_first : bool;
  ts_err : error;
  ts_ctx : option Context;
  ts_cancel : option CancelFunc;
  ts_done : option Chan
}.

(** ** Effects *)

Inductive effect : Type :=
| Go (c : option Context) (t : Task)     (* go ts.run(ctx, t) *)
| Call (c : option Context) (t : Task)   (* ts.run(ctx, t), on the caller's goroutine *)
| Cancel                                 (* ts.cancel(), or do's deferred cancel() *)
| Send (v : error).                      (* ts.done <- v *)

(** Field updates, written [ts.f = v] in the source. *)
Definition set_mode (m : mode) (ts : Tasks) : Tasks :=
  mkTasks m (ts_pending ts) (ts_running ts) (ts_first ts) (ts_err ts)
          (ts_ctx ts) (ts_cancel ts) (ts_done ts).
Definition set_pending (p : list Task) (ts : Tasks) : Tasks :=
  mkTasks (ts_mode ts) p (ts_running ts) (ts_first ts) (ts_err ts)
          (ts_ctx ts) (ts_cancel ts) (ts_done ts).
Definition set_running (n : Z) (ts : Tasks) : Tasks :=
  mkTasks (ts_mode ts) (ts_pending ts) n (ts_first ts) (ts_err ts)
          (ts_ctx ts) (ts_cancel ts) (ts_done ts).
Definition set_first (b : bool) (ts : Tasks) : Tasks :=
  mkTasks (ts_mode ts) (ts_pending ts) (ts_running ts) b (ts_err ts)
          (ts_ctx ts) (ts_cancel ts) (ts_done ts).
Definition set_err (e : error) (ts : Tasks) : Tasks :=
  mkTasks (ts_mode ts) (ts_pending ts) (ts_running ts) (ts_first ts) e
          (ts_ctx ts) (ts_cancel ts) (ts_done ts).

(** ** The orchestrator *)

(** [New]: [new(Tasks)] gives the zero value of every field. *)
Definition New (tasks : list Task) : Tasks :=
  mkTasks modeInit tasks 0 false None None None None.

(** [Add]. *)
Definition Add (ts : Tasks) (tasks : list Task) : Tasks * list effect :=
  match ts_mode ts with
  | modeInit => (set_pending (ts_pending ts ++ tasks) ts, [])
  | _ =>
      (set_running (wrap (ts_running ts + len tasks)) ts,
       map (Go (ts_ctx ts)) tasks)
  end.

(** How a call of [do] goes on after the lock is released: it returns at
    once with an error, or it blocks on [<-ts.done] and returns what it
    receives there. *)
Inductive do_result : Type :=
| Returns (e : error)
| Awaits.

(** [do].  The deferred [cancel()] runs when [do] returns: at once on the
    [ErrNoTasks] path (it is in the effects), after the receive on the
    other (see [do_resume]). *)
Definition do (ts : Tasks) (ctx : Context) (m : mode)
  : Tasks * list effect * do_result :=
  match ts_mode ts with
  | modeInit =>
      let ctx' := WithCancel ctx in
      let tasks := ts_pending ts in
      let tasks := if mode_eqb m modeRepeat then tasks ++ [Wait] else tasks in
      let ts' := mkTasks m [] (len tasks) true (ts_err ts)
                         (Some ctx') (Some (CancelOf ctx')) (Some (MakeChan 1)) in
      match tasks with
      | t0 :: rest =>
          (ts', map (Go (Some ctx')) rest ++ [Call (Some ctx') t0], Awaits)
      | [] => (ts', [Cancel], Returns (Some ErrNoTasks))
      end
  | modeDone => (ts, [], Returns (Some ErrFinished))
  | _ => (ts, [], Returns (Some ErrRunning))
  end.

(** The end of a [do] that was waiting: [return <-ts.done], then the
    deferred [cancel()]. *)
Definition do_resume (received : error) : list effect * error :=
  ([Cancel], received).

Definition Run (ts : Tasks) (ctx : Context) := do ts ctx modeRun.
Definition Race (ts : Tasks) (ctx : Context) := do ts ctx modeRace.
Definition Repeat (ts : Tasks) (ctx : Context) := do ts ctx modeRepeat.

(** [report], in the three parts of its body: the decrement, the switch
    on the mode, the completion check.  The switch answers [None] where the
    source returns from inside it; no case of the switch matches
    [modeInit]. *)
Definition report_switch (ts : Tasks) (err : error)
  : option (Tasks * list effect) :=
  match ts_mode ts with
  | modeRun | modeRepeat =>
      Some (if is_nil (ts_err ts) then set_err err ts else ts,
            if is_nil err then [] else [Cancel])
  | modeRace =>
      Some (if ts_first ts then set_first false (set_err err ts) else ts,
            [Cancel])
  | modeDone => None
  | modeInit => Some (ts, [])
  end.

Definition report_finish (ts : Tasks) : Tasks * list effect :=
  if ts_running ts >? 0 then (ts, [])
  else if negb (mode_eqb (ts_mode ts) modeRepeat) || negb (is_nil (ts_err ts))
       then (set_mode modeDone ts, [Send (ts_err ts)])
       else (ts, []).

Definition report (ts : Tasks) (err : error) : Tasks * list effect :=
  let ts := set_running (wrap (ts_running ts - 1)) ts in
  match report_switch ts err with
  | None => (ts, [])
  | Some (ts, eff1) =>
      let '(ts, eff2) := report_finish ts in
      (ts, eff1 ++ eff2)
  end.

(** ** The panic barrier: [run] *)

(** How the call [t(ctx)] of a task body ends. *)
Inductive completion : Type :=
| Returned (err : error)
| Panicked (p : any).

(** [recover()] in the deferred function, with the Go 1.16 toolchain of the
    Dockerfile: it answers the value given to [panic] and stops the
    panicking; it answers nil when the goroutine is not panicking, and also
    after [panic(nil)]. *)
Definition recover (body : completion) : any :=
  match body with
  | Panicked p => p
  | Returned _ => None
  end.

(** [run].  [Panic] is the package variable of that name, [stack] what
    [debug.Stack()] answers, [body] how [t(ctx)] ended.  The third
    component is the panic that still unwinds the goroutine when [run] is
    left, if any. *)
Definition run (Panic : bool) (stack : list Byte.byte) (ts : Tasks)
           (body : completion) : Tasks * list effect * option any :=
  (* var err error; err = t(ctx): the assignment needs the call to return *)
  let err := match body with Returned e => e | Panicked _ => None end in
  (* the deferred function *)
  let err :=
    if negb Panic then
      match recover body with
      | Some v => Some (ErrPanic (Some v) stack)
      | None => err
      end
    else err in
  let unwinding :=
    match body with
    | Panicked p => if negb Panic then None else Some p
    | Returned _ => None
    end in
  let '(ts, eff) := report ts err in
  (ts, eff, unwinding).

(** ** The other version of the file

    It has no [ErrNoTasks] and no panic barrier, it starts every task with
    [go], and [Repeat] gets no [Wait] task.  [New], [Add] and [report] are
    the same, line for line. *)
Module V1.

Definition do (ts : Tasks) (ctx : Context) (m : mode)
  : Tasks * list effect * do_result :=
  match ts_mode ts with
  | modeInit =>
      let tasks := ts_pending ts in
      if (len tasks =? 0) && negb (mode_eqb m modeRepeat) then
        (mkTasks modeDone [] (ts_running ts) (ts_first ts) (ts_err ts)
                 (ts_ctx ts) (ts_cancel ts) (ts_done ts),
         [], Returns None)
      else
        let ctx' := WithCancel ctx in
        (mkTasks m [] (len tasks) true (ts_err ts)
                 (Some ctx') (Some (CancelOf ctx')) (Some (MakeChan 1)),
         map (Go (Some ctx')) tasks, Awaits)
  | modeDone => (ts, [], Returns (Some ErrFinished))
  | _ => (ts, [], Returns (Some ErrRunning))
  end.

Definition run (ts : Tasks) (body : completion)
  : Tasks * list effect * option any :=
  match body with
  | Returned err => let '(ts, eff) := report ts err in (ts, eff, None)
  | Panicked p => (ts, [], Some p)
  end.

End V1.

(** ** Executions

    The caller and the tasks act on the orchestrator in some order; the
    mutex makes every action atomic.  An execution is the list of these
    actions.  Nothing is assumed about the tasks: any running task may
    report any outcome at any moment. *)

Inductive event : Type :=
| EvAdd (tasks : list Task)
| EvRun (ctx : Context)
| EvRace (ctx : Context)
| EvRepeat (ctx : Context)
| EvReport (err : error).

(** The orchestrator, the number of goroutines inside [run] that have not
    called [report] yet, and all the effects so far. *)
Record World : Type := mkWorld {
  w_ts : Tasks;
  w_live : nat;
  w_log : list effect
}.

Definition is_launch (e : effect) : bool :=
  match e with Go _ _ | Call _ _ => true | _ => false end.

Definition launches (eff : list effect) : nat :=
  List.length (filter is_launch eff).

(** The values sent on [done]. *)
Fixpoint sends (eff : list effect) : list error :=
  match eff with
  | [] => []
  | Send v :: eff => v :: sends eff
  | _ :: eff => sends eff
  end.

(** One action.  [report] is called by a goroutine inside [run], so there
    must be one; and the goroutines alive at one time are no more than
    [int_max].  [None] marks a list of actions no program can perform. *)
Definition act (w : World) (ts : Tasks) (eff : list effect) (live : nat)
  : option World :=
  let live := (live + launches eff)%nat in
  if Z.of_nat live <=? int_max
  then Some (mkWorld ts live (w_log w ++ eff))
  else None.

Definition step (w : World) (ev : event) : option World :=
  match ev with
  | EvAdd tasks =>
      let '(ts, eff) := Add (w_ts w) tasks in act w ts eff (w_live w)
  | EvRun ctx =>
      let '(ts, eff, _) := Run (w_ts w) ctx in act w ts eff (w_live w)
  | EvRace ctx =>
      let '(ts, eff, _) := Race (w_ts w) ctx in act w ts eff (w_live w)
  | EvRepeat ctx =>
      let '(ts, eff, _) := Repeat (w_ts w) ctx in act w ts eff (w_live w)
  | EvReport err =>
      match w_live w with
      | O => None
      | S n => let '(ts, eff) := report (w_ts w) err in act w ts eff n
      end
  end.

Fixpoint exec (w : World) (evs : list event) : option World :=
  match evs with
  | [] => Some w
  | ev :: evs =>
      match step w ev with
      | Some w' => exec w' evs
      | None => None
      end
  end.

(** A fresh orchestrator made by [New]. *)
Definition fresh (tasks : list Task) : World := mkWorld (New tasks) 0 [].

(** The outcomes reported in an execution, in order. *)
Fixpoint reports (evs : list event) : list error :=
  match evs with
  | [] => []
  | EvReport e :: evs => e :: reports evs
  | _ :: evs => reports evs
  end.

(** The first failure in a list of outcomes, nil when all are successes. *)
Fixpoint first_failure (es : list error) : error :=
  match es with
  | [] => None
  | Some e :: _ => Some e
  | None :: es => first_failure es
  end.

(** A run of reports from a given state of the struct. *)
Fixpoint report_all (ts : Tasks) (es : list error) : Tasks * list effect :=
  match es with
  | [] => (ts, [])
  | e :: es =>
      let '(ts1, eff1) := report ts e in
      let '(ts2, eff2) := report_all ts1 es in
      (ts2, eff1 ++ eff2)
  end.

Definition boom : error := Some (Errorf "boom").

(** The mode of the first start of an execution. *)
Definition start_of (ev : event) : option mode :=
  match ev with
  | EvRun _ => Some modeRun
  | EvRace _ => Some modeRace
  | EvRepeat _ => Some modeRepeat
  | _ => None
  end.

Fixpoint started (evs : list event) : option mode :=
  match evs with
  | [] => None
  | ev :: evs =>
      match start_of ev with
      | Some m => Some m
      | None => started evs
      end
  end.

Definition report_of (ev : event) : list error :=
  match ev with EvReport e => [e] | _ => [] end.

(** ** The invariant of executions

    What holds of the orchestrator after any execution [evs] that starts
    from a fresh one: the counter is the number of running goroutines; as
    long as the orchestration is live nothing was sent on [done] and the
    recorded error is what the reports so far make it; once it is done,
    exactly the recorded error was sent, and it was fixed by the reports
    [es1] that came before the send. *)
Definition live_inv (evs : list event) (w : World) : Prop :=
  let ts := w_ts w in
  match ts_mode ts with
  | modeInit =>
      w_live w = O /\ w_log w = [] /\ ts_err ts = None /\
      reports evs = [] /\ started evs = None
  | modeRun =>
      started evs = Some modeRun /\ sends (w_log w) = [] /\
      ts_err ts = first_failure (reports evs) /\
      (w_live w = O -> reports evs = [])
  | modeRepeat =>
      started evs = Some modeRepeat /\ sends (w_log w) = [] /\
      ts_err ts = first_failure (reports evs) /\
      (w_live w = O -> ts_err ts = None)
  | modeRace =>
      started evs = Some modeRace /\ sends (w_log w) = [] /\
      (if ts_first ts
       then reports evs = [] /\ ts_err ts = None
       else exists es, reports evs = ts_err ts :: es) /\
      (w_live w = O -> reports evs = [])
  | modeDone =>
      sends (w_log w) = [ts_err ts] /\
      exists es1 es2, reports evs = es1 ++ es2 /\ es1 <> [] /\
        match started evs with
        | Some modeRun => ts_err ts = first_failure es1
        | Some modeRepeat =>
            ts_err ts = first_failure es1 /\ ts_err ts <> None
        | Some modeRace => hd_error es1 = Some (ts_err ts)
        | _ => False
        end
  end.

Definition Inv (evs : list event) (w : World) : Prop :=
  Z.of_nat (w_live w) <= int_max /\
  ts_running (w_ts w) = Z.of_nat (w_live w) /\
  live_inv evs w.

(** The tasks a list of effects starts, in order. *)
Fixpoint launched (eff : list effect) : list Task :=
  match eff with
  | [] => []
  | Go _ t :: eff => t :: launched eff
  | Call _ t :: eff => t :: launched eff
  | _ :: eff => launched eff
  end.

(** ** Sample states *)

(** [New(f1, f2)] after [Run], [Race] and [Repeat]. *)
Definition two_tasks : list Task := [Func 1; Func 2].
Definition run2 : Tasks := fst (fst (Run (New two_tasks) Background)).
Definition race2 : Tasks := fst (fst (Race (New two_tasks) Background)).
Definition repeat2 : Tasks := fst (fst (Repeat (New two_tasks) Background)).

(** A whole [Run] of two tasks: a success, then a failure. *)
Definition sample_run : list event :=
  [EvRun Background; EvReport None; EvReport boom].

Definition sample_world : World :=
  match exec (fresh two_tasks) sample_run with
  | Some w => w
  | None => fresh []
  end.

(** A recorded failure that can no longer be replaced. *)
Definition failure_fixed (ts : Tasks) (x : err_value) : Prop :=
  ts_err ts = Some x /\ ts_mode ts <> modeInit /\
  (ts_mode ts = modeRace -> ts_first ts = false).

(** The orchestrator at the end of [sample_run], and three then two tasks
    for [Add]. *)
Definition finished : Tasks := w_ts sample_world.
Definition three : list Task := [Func 1; Func 2; Func 3].
Definition two : list Task := [Func 4; Func 5].

(** The world right after the [Run] of [sample_run]. *)
Definition started_world : World :=
  match step (fresh two_tasks) (EvRun Background) with
  | Some w => w
  | None => fresh []
  end.

(** [New(f1)] after [Run]: one task is running. *)
Definition run1 : Tasks := fst (fst (Run (New [Func 1]) Background)).

(** ** More observations of an execution *)

(** The tasks handed to [Add], in order. *)
Fixpoint added (evs : list event) : list Task :=
  match evs with
  | [] => []
  | EvAdd tasks :: evs => tasks ++ added evs
  | _ :: evs => added evs
  end.

(** The context handed to the first start. *)
Definition ctx_of (ev : event) : option Context :=
  match ev with
  | EvRun ctx | EvRace ctx | EvRepeat ctx => Some ctx
  | _ => None
  end.

Fixpoint start_ctx (evs : list event) : option Context :=
  match evs with
  | [] => None
  | ev :: evs =>
      match ctx_of ev with
      | Some c => Some c
      | None => start_ctx evs
      end
  end.

(** The context a task is started against. *)
Definition launch_ctx (e : effect) : option (option Context) :=
  match e with
  | Go c _ | Call c _ => Some c
  | _ => None
  end.

(** The effects that come before the first send on [done]. *)
Fixpoint before_send (eff : list effect) : list effect :=
  match eff with
  | [] => []
  | Send _ :: _ => []
  | x :: eff => x :: before_send eff
  end.

(** The [Wait] task a [Repeat] brings along. *)
Definition synthetic (m : option mode) : list Task :=
  match m with
  | Some modeRepeat => [Wait]
  | _ => []
  end.

(** The order of the modes: a mode may only be followed by itself, by the
    mode of a start when it is [modeInit], or by [modeDone] when a start
    was accepted. *)
Definition mode_follows (a b : mode) (ev : event) : Prop :=
  b = a \/
  (a = modeInit /\ start_of ev = Some b) \/
  (a <> modeInit /\ a <> modeDone /\ b = modeDone /\ report_of ev <> []).

(** Tasks are compared by identity. *)
Definition Task_eq_dec (a b : Task) : {a = b} + {a <> b}.
Proof. decide equality. apply Nat.eq_dec. Defined.

(** The effects of one action, as [step] appends them to the log. *)
Definition effects_of (ts : Tasks) (ev : event) : list effect :=
  match ev with
  | EvAdd tasks => snd (Add ts tasks)
  | EvRun ctx => snd (fst (Run ts ctx))
  | EvRace ctx => snd (fst (Race ts ctx))
  | EvRepeat ctx => snd (fst (Repeat ts ctx))
  | EvReport e => snd (report ts e)
  end.

(** Cancellation is due: a failure is recorded in a [Run] or a [Repeat],
    or a [Race] has had its first report. *)
Definition cancel_due (ts : Tasks) : Prop :=
  match ts_mode ts with
  | modeRun | modeRepeat => ts_err ts <> None
  | modeRace => ts_first ts = false
  | _ => False
  end.

(** The state after one action. *)
Definition after (ts : Tasks) (ev : event) : Tasks :=
  match ev with
  | EvAdd tasks => fst (Add ts tasks)
  | EvRun ctx => fst (fst (Run ts ctx))
  | EvRace ctx => fst (fst (Race ts ctx))
  | EvRepeat ctx => fst (fst (Repeat ts ctx))
  | EvReport e => fst (report ts e)
  end.

(** ** The functions of the package

    [Run(ctx, tasks...)] and [Race(ctx, tasks...)]: a fresh orchestrator,
    started at once. *)
Module Pkg.

Definition Run (ctx : Context) (tasks : list Task) := Run (New tasks) ctx.
Definition Race (ctx : Context) (tasks : list Task) := Race (New tasks) ctx.

End Pkg.

(** ** The methods of the errors *)

(** [%v] of a panic value: the printed form, ["<nil>"] for nil. *)
Definition format_v (p : any) : string :=
  match p with
  | Some v => v
  | None => "<nil>"
  end.

(** [Error()]. *)
Definition Error (e : err_value) : string :=
  match e with
  | ErrRunning => "already running"
  | ErrFinished => "finished execution"
  | ErrNoTasks => "no tasks to execute"
  | ErrPanic p _ => "caught panic: " ++ format_v p
  | Canceled => "context canceled"
  | DeadlineExceeded => "context deadline exceeded"
  | Errorf msg => msg
  end.

(** [Stack()], a method of [ErrPanic] only: [None] where [errors.As] finds
    no [ErrPanic]. *)
Definition Stack (e : err_value) : option (list Byte.byte) :=
  match e with
  | ErrPanic _ stack => Some stack
  | _ => None
  end.

(** ** The bodies of the tasks of the package

    A body blocks on channels and returns when one of them is ready.  What
    it sees of a context is the context's [Err()]: nil as long as [Done()]
    is open, the error once it is closed.  A body is a function of what is
    ready at the moment it is woken; it answers [None] when it stays
    blocked, [Some err] when it returns [err]. *)
Module Body.

(** [select] with two cases: it blocks while neither is ready, takes the
    one that is ready, and either of them when both are. *)
Definition select2 {A : Type} (a b : option A) (first : bool) : option A :=
  match a, b with
  | None, None => None
  | Some x, None => Some x
  | None, Some y => Some y
  | Some x, Some y => Some (if first then x else y)
  end.

(** [<-ctx.Done(); return ctx.Err()]. *)
Definition Wait (ctx : error) : option error :=
  match ctx with
  | Some e => Some (Some e)
  | None => None
  end.

Definition Noop (ctx : error) : option error := Some None.

(** [Context(ctx)(ctx2)]. *)
Definition Context (ctx ctx2 : error) (first : bool) : option error :=
  select2 (option_map (@Some err_value) ctx)
          (option_map (@Some err_value) ctx2) first.

(** [Timer(d)(ctx)]; [fired] says whether the timer has sent on
    [timer.C]. *)
Definition Timer (fired : bool) (ctx : error) (first : bool) : option error :=
  select2 (option_map (@Some err_value) ctx)
          (if fired then Some None else None) first.

(** [Sleep(d)(ctx)]. *)
Definition Sleep (fired : bool) (ctx : error) (first : bool) : option error :=
  select2 (option_map (@Some err_value) ctx)
          (if fired then Some None else None) first.

(** [context.WithTimeout(ctx, d)]: the child is done with the error of the
    parent when the parent is done, with [DeadlineExceeded] when the
    deadline has passed, with the earlier of the two when both hold. *)
Definition WithTimeout (parent : error) (expired : bool) (first : bool)
  : error :=
  select2 parent (if expired then Some DeadlineExceeded else None) first.

(** [Timeout(d)(ctx)]. *)
Definition Timeout (expired : bool) (ctx : error) (first : bool)
  : option error :=
  Wait (WithTimeout ctx expired first).

(** Signals, by number. *)
Definition SIGHUP : nat := 1.
Definition SIGINT : nat := 2.
Definition SIGTERM : nat := 15.

(** [signal.Notify(c, signals...)] on a channel of capacity one: of the
    signals that come in, the first that is asked for is what [c] gives;
    with no signal named, every signal is asked for. *)
Definition Notify (signals incoming : list nat) : option nat :=
  find (fun s =>
          match signals with
          | [] => true
          | _ => existsb (Nat.eqb s) signals
          end) incoming.

(** What [Signal] returns: the error of the context, or [ErrSignal]. *)
Inductive signal_error : Type :=
| CtxErr (e : err_value)
| ErrSignal (sig : nat).

(** [Signal(signals...)(ctx)]. *)
Definition Signal (signals incoming : list nat) (ctx : error) (first : bool)
  : option signal_error :=
  select2 (option_map CtxErr ctx)
          (option_map ErrSignal (Notify signals incoming)) first.

Definition Interrupt (incoming : list nat) (ctx : error) (first : bool)
  : option signal_error :=
  Signal [SIGTERM; SIGINT; SIGHUP] incoming ctx first.

End Body.

Arguments wrap : simpl never.
Arguments len : simpl never.
Arguments int_max : simpl never.
Arguments int_min : simpl never.

(** * Lemmas *)

Section Arith.

Lemma wrap_small (z : Z) : in_int z -> wrap z = z.
Proof.
  unfold in_int, int_min, int_max, wrap; intros H.
  rewrite Z.mod_small; lia.
Qed.

Lemma wrap_pred (n : nat) :
  Z.of_nat (S n) <= int_max -> wrap (Z.of_nat (S n) - 1) = Z.of_nat n.
Proof.
  intros H. rewrite wrap_small; [lia|].
  unfold in_int, int_min, int_max in *. lia.
Qed.

Lemma wrap_add (n k : nat) :
  Z.of_nat (n + k) <= int_max ->
  wrap (Z.of_nat n + Z.of_nat k) = Z.of_nat (n + k).
Proof.
  intros H. rewrite wrap_small; [lia|].
  unfold in_int, int_min, int_max in *. lia.
Qed.

End Arith.

Section Lists.

Lemma sends_app (a b : list effect) : sends (a ++ b) = sends a ++ sends b.
Proof.
  induction a as [|x a IH]; simpl; [reflexivity|].
  destruct x; simpl; rewrite IH; reflexivity.
Qed.

Lemma sends_map_go (c : option Context) (l : list Task) :
  sends (map (Go c) l) = [].
Proof. induction l; simpl; auto. Qed.

Lemma launches_map_go (c : option Context) (l : list Task) :
  launches (map (Go c) l) = List.length l.
Proof.
  unfold launches. induction l; simpl; auto.
Qed.

Lemma launches_app (a b : list effect) :
  launches (a ++ b) = (launches a + launches b)%nat.
Proof.
  unfold launches. rewrite filter_app, length_app. reflexivity.
Qed.

Lemma reports_app (a b : list event) : reports (a ++ b) = reports a ++ reports b.
Proof.
  induction a as [|x a IH]; simpl; [reflexivity|].
  destruct x; simpl; rewrite ?IH; reflexivity.
Qed.

Lemma reports_snoc (a : list event) (ev : event) :
  reports (a ++ [ev]) = reports a ++ report_of ev.
Proof. rewrite reports_app. destruct ev; reflexivity. Qed.

Lemma started_snoc (a : list event) (ev : event) :
  started (a ++ [ev]) =
  match started a with Some m => Some m | None => start_of ev end.
Proof.
  induction a as [|x a IH]; simpl.
  - destruct (start_of ev); reflexivity.
  - destruct (start_of x); auto.
Qed.

Lemma first_failure_app (a b : list error) :
  first_failure (a ++ b) =
  match first_failure a with Some x => Some x | None => first_failure b end.
Proof.
  induction a as [|[x|] a IH]; simpl; auto.
Qed.

Lemma exec_app (w : World) (a b : list event) :
  exec w (a ++ b) =
  match exec w a with Some w' => exec w' b | None => None end.
Proof.
  revert w. induction a as [|x a IH]; intros w; simpl; [reflexivity|].
  destruct (step w x); auto.
Qed.

End Lists.

Section Invariant.

Lemma Inv_fresh (p : list Task) : Inv [] (fresh p).
Proof.
  unfold Inv, live_inv, fresh, int_max; simpl. repeat split; auto; lia.
Qed.

Ltac open_world w :=
  destruct w as [[m pend r f e c cf d] live log];
  unfold Inv, live_inv in *; simpl in *.

Ltac break :=
  repeat match goal with
  | H : _ /\ _ |- _ => destruct H
  | H : exists _, _ |- _ => destruct H
  end.

Ltac use_started :=
  try match goal with
  | H : started _ = _ |- _ => rewrite H in *
  end.

Ltac use_reports :=
  try match goal with
  | H : reports _ = _ |- _ => rewrite H in *
  end.

Ltac finish :=
  break; subst; use_started; use_reports; simpl;
  repeat split; auto; try lia; try congruence.

Ltac rw :=
  repeat match goal with
  | H : started _ = _ |- _ => rewrite H
  | H : sends _ = _ |- _ => rewrite H
  | H : reports _ = _ |- _ => rewrite H
  | H : _ = first_failure _ |- _ => rewrite <- H
  end.

Lemma snoc_not_nil {A : Type} (l : list A) (a : A) : l ++ [a] <> [].
Proof. destruct l; discriminate. Qed.

Ltac split_reports :=
  match goal with
  | H : ?a <> [] |- exists es1 es2, (?a ++ ?b) ++ ?c = es1 ++ es2 /\ _ =>
      exists a, (b ++ c); rewrite app_assoc
  | |- exists es1 es2, ?L = es1 ++ es2 /\ _ =>
      exists L, (@nil error); rewrite app_nil_r
  end.

Ltac solve_inv :=
  break; rw; simpl; rewrite ?first_failure_app; rw; simpl;
  repeat match goal with
  | |- _ /\ _ => split
  | |- exists _, _ => split_reports
  end;
  rewrite ?first_failure_app; rw; simpl;
  auto using snoc_not_nil; try lia; try congruence;
  try (intros; discriminate); eauto.

Lemma Inv_Add (evs : list event) (w w' : World) (tasks : list Task) :
  Inv evs w -> step w (EvAdd tasks) = Some w' -> Inv (evs ++ [EvAdd tasks]) w'.
Proof.
  intros HI HS. open_world w.
  destruct HI as (Hb & Hr & HI).
  unfold Add, act, len in HS; simpl in HS.
  rewrite reports_snoc, started_snoc, app_nil_r; simpl.
  destruct m; simpl in HS;
    rewrite ?launches_map_go in HS; simpl in HS;
    match type of HS with
    | (if ?c then _ else _) = _ => destruct c eqn:Hc; [|discriminate]
    end;
    apply Z.leb_le in Hc; injection HS as <-; simpl;
    rewrite ?sends_app, ?sends_map_go, ?app_nil_r;
    try (subst r; rewrite wrap_add by auto).
  - finish.
  - finish. intros Hz. assert (live = O) by lia. auto.
  - finish. intros Hz. assert (live = O) by lia. auto.
  - finish. intros Hz. assert (live = O) by lia. auto.
  - destruct HI as (Hs & es1 & es2 & H1 & H2 & H3).
    do 3 (split; [auto|]). exists es1, es2.
    destruct (started evs) as [[]|]; auto.
Qed.

Lemma launches_start (c : option Context) (t0 : Task) (rest : list Task) :
  launches (map (Go c) rest ++ [Call c t0]) = S (List.length rest).
Proof.
  rewrite launches_app, launches_map_go. unfold launches; simpl. lia.
Qed.

Lemma sends_start (c : option Context) (t0 : Task) (rest : list Task) :
  sends (map (Go c) rest ++ [Call c t0]) = [].
Proof. rewrite sends_app, sends_map_go. reflexivity. Qed.

Lemma Inv_start (evs : list event) (w w' : World) (ev : event) :
  start_of ev <> None ->
  Inv evs w -> step w ev = Some w' -> Inv (evs ++ [ev]) w'.
Proof.
  intros Hst HI HS. open_world w.
  destruct HI as (Hb & Hr & HI).
  rewrite reports_snoc, started_snoc.
  destruct ev; simpl in Hst; try congruence; clear Hst;
    unfold step, Run, Race, Repeat, do, act in HS; simpl in *;
    rewrite app_nil_r.
  all: destruct m; simpl in HS.
  all: try (destruct pend as [|t0 rest]; simpl in HS).
  all: rewrite ?launches_start, ?launches_app, ?launches_map_go in HS.
  all: unfold launches in HS; simpl in HS.
  all: match type of HS with
       | (if ?c then _ else _) = _ => destruct c eqn:Hc; [|discriminate]
       end;
       apply Z.leb_le in Hc; injection HS as <-; simpl;
       rewrite ?sends_app, ?sends_start, ?sends_map_go, ?app_nil_r;
       unfold len; simpl Datatypes.length.
  all: rewrite ?length_app in *; simpl Datatypes.length in *.
  all: try solve [finish].
  all: try solve [finish; intros Hz; assert (live = O) by lia; auto].
  all: try solve [destruct HI as (Hs & es1 & es2 & H1 & H2 & H3);
                  do 3 (split; [auto; try lia|]); exists es1, es2;
                  destruct (started evs) as [[]|]; try contradiction; auto].
Qed.

Lemma Inv_report (evs : list event) (w w' : World) (err : error) :
  Inv evs w -> step w (EvReport err) = Some w' ->
  Inv (evs ++ [EvReport err]) w'.
Proof.
  intros HI HS. open_world w.
  destruct HI as (Hb & Hr & HI).
  rewrite reports_snoc, started_snoc; simpl.
  destruct live as [|n]; [discriminate|].
  unfold report, report_switch, report_finish, act in HS; simpl in HS.
  subst r. rewrite wrap_pred in HS by auto.
  assert (Hn : Z.of_nat n <= int_max) by lia.
  destruct m; simpl in HS.
  all: destruct e as [x|]; destruct err as [y|]; simpl in HS.
  all: try (destruct f; simpl in HS).
  all: destruct n as [|n]; simpl in HS.
  all: unfold launches in HS; simpl in HS; rewrite ?Nat.add_0_r in HS.
  all: try match type of HS with
       | (if ?c then _ else _) = _ => destruct c eqn:Hc; [|discriminate]
       end;
       injection HS as <-;
       unfold set_mode, set_running, set_err, set_first; simpl;
       rewrite ?sends_app, ?app_nil_r; simpl.
  all: try solve [finish].
  all: try solve [solve_inv].
  all: destruct HI as (Hs & es1 & es2 & H1 & H2 & H3);
       do 2 (split; [auto; lia|]); split; [assumption|];
       exists es1; eexists;
       (split; [rewrite H1, <- app_assoc; reflexivity|]);
       destruct (started evs) as [[]|]; try contradiction; auto.
Qed.

Lemma Inv_step (evs : list event) (w w' : World) (ev : event) :
  Inv evs w -> step w ev = Some w' -> Inv (evs ++ [ev]) w'.
Proof.
  destruct ev; eauto using Inv_Add, Inv_report;
    apply Inv_start; discriminate.
Qed.

Lemma exec_Inv (p : list Task) (evs : list event) :
  forall w, exec (fresh p) evs = Some w -> Inv evs w.
Proof.
  induction evs as [|ev evs IH] using rev_ind; intros w H.
  - injection H as <-. apply Inv_fresh.
  - rewrite exec_app in H.
    destruct (exec (fresh p) evs) as [w0|] eqn:E; [|discriminate].
    simpl in H. destruct (step w0 ev) as [w1|] eqn:S; [|discriminate].
    injection H as <-. eapply Inv_step; eauto.
Qed.

End Invariant.

(** * One report *)

Section OneReport.

Variable ts : Tasks.
Variable e : error.

(** What one [report] does to the fields, whatever the counter is. *)
Lemma report_fields :
  let ts' := fst (report ts e) in
  ts_running ts' = wrap (ts_running ts - 1) /\
  ts_pending ts' = ts_pending ts /\
  ts_ctx ts' = ts_ctx ts /\
  ts_err ts' =
    match ts_mode ts with
    | modeRun | modeRepeat => if is_nil (ts_err ts) then e else ts_err ts
    | modeRace => if ts_first ts then e else ts_err ts
    | _ => ts_err ts
    end /\
  ts_first ts' =
    match ts_mode ts with
    | modeRace => false
    | _ => ts_first ts
    end.
Proof.
  destruct ts as [m pend r f err c cf d].
  unfold report, report_switch, report_finish; simpl.
  destruct m, err, e, f; simpl;
    destruct (wrap (r - 1) >? 0); simpl; auto.
Qed.

(** The send and the step to [modeDone] go together, under the two
    conditions of the completion check. *)
Lemma report_finishes :
  let ts' := fst (report ts e) in
  let eff := snd (report ts e) in
  (sends eff = [] /\ ts_mode ts' = ts_mode ts) \/
  (sends eff = [ts_err ts'] /\ ts_mode ts <> modeDone /\
   ts_mode ts' = modeDone /\ ts_running ts' <= 0 /\
   (ts_mode ts = modeRepeat -> ts_err ts' <> None)).
Proof.
  destruct ts as [m pend r f err c cf d].
  unfold report, report_switch, report_finish; simpl.
  destruct (wrap (r - 1) >? 0) eqn:Hgt;
    [|assert (wrap (r - 1) <= 0) by (rewrite Z.gtb_ltb in Hgt;
        apply Z.ltb_ge in Hgt; exact Hgt)];
    destruct m, err, e, f; simpl; rewrite ?Hgt; simpl; auto;
    right; repeat split; auto; discriminate.
Qed.

Lemma report_completes :
  ts_mode ts <> modeDone -> wrap (ts_running ts - 1) <= 0 ->
  (ts_mode ts = modeRepeat -> ts_err (fst (report ts e)) <> None) ->
  ts_mode (fst (report ts e)) = modeDone.
Proof.
  destruct ts as [m pend r f err c cf d].
  unfold report, report_switch, report_finish; simpl.
  intros Hm Hle Hrep.
  assert (Hgt : (wrap (r - 1) >? 0) = false)
    by (rewrite Z.gtb_ltb; apply Z.ltb_ge; exact Hle).
  revert Hrep. destruct m, err, e, f; simpl; rewrite ?Hgt; simpl; auto;
    try congruence; intros Hrep; exfalso; apply Hrep; reflexivity.
Qed.

Lemma report_Done :
  ts_mode ts = modeDone ->
  report ts e = (set_running (wrap (ts_running ts - 1)) ts, []).
Proof.
  intros H. unfold report, report_switch; simpl. rewrite H. reflexivity.
Qed.

End OneReport.

(** * Runs of reports *)

Section ManyReports.

Lemma report_all_cons (ts : Tasks) (e : error) (es : list error) :
  fst (report_all ts (e :: es)) = fst (report_all (fst (report ts e)) es) /\
  snd (report_all ts (e :: es)) =
    snd (report ts e) ++ snd (report_all (fst (report ts e)) es).
Proof.
  simpl. destruct (report ts e) as [ts1 eff1]; simpl.
  destruct (report_all ts1 es); auto.
Qed.

(** After the first report of a race, and after the end, the recorded
    error stays and is all that can be sent. *)
Lemma settled (es : list error) :
  forall ts,
    ts_mode ts = modeDone \/ (ts_mode ts = modeRace /\ ts_first ts = false) ->
    ts_err (fst (report_all ts es)) = ts_err ts /\
    forall v, In v (sends (snd (report_all ts es))) -> v = ts_err ts.
Proof.
  induction es as [|e es IH]; intros ts H.
  - simpl; split; [reflexivity | intros v []].
  - destruct (report_all_cons ts e es) as [-> ->].
    destruct (report_fields ts e) as (_ & _ & _ & He & Hf).
    assert (He' : ts_err (fst (report ts e)) = ts_err ts)
      by (rewrite He; destruct H as [-> | [-> ->]]; reflexivity).
    assert (H' : ts_mode (fst (report ts e)) = modeDone \/
                 (ts_mode (fst (report ts e)) = modeRace /\
                  ts_first (fst (report ts e)) = false)).
    { destruct (report_finishes ts e) as [[_ Hm] | (_ & _ & Hm & _)]; auto.
      destruct H as [Hd | [Hr Hff]]; [left; congruence|].
      right; split; [congruence|]. rewrite Hf, Hr. reflexivity. }
    destruct (IH _ H') as [IH1 IH2]. split; [congruence|].
    intros v Hv. rewrite sends_app in Hv. apply in_app_or in Hv.
    destruct Hv as [Hv | Hv]; [|rewrite <- He'; auto].
    destruct (report_finishes ts e) as [[Hs _] | (Hs & _)];
      rewrite Hs in Hv; simpl in Hv; [tauto|].
    destruct Hv as [<- | []]. exact He'.
Qed.

(** In [modeRepeat] nothing but a failure is ever sent. *)
Lemma repeat_sends (es : list error) :
  forall ts v,
    ts_mode ts = modeRepeat \/ ts_mode ts = modeDone ->
    In v (sends (snd (report_all ts es))) -> v <> None.
Proof.
  induction es as [|e es IH]; intros ts v H Hv.
  - simpl in Hv; tauto.
  - destruct (report_all_cons ts e es) as [_ Heq]. rewrite Heq in Hv.
    rewrite sends_app in Hv. apply in_app_or in Hv.
    destruct (report_finishes ts e) as [[Hs Hm] | (Hs & Hnd & Hm & _ & Hrep)].
    + rewrite Hs in Hv. destruct Hv as [[] | Hv].
      apply (IH (fst (report ts e)) v); [rewrite Hm; exact H | exact Hv].
    + destruct H as [H | H]; [|contradiction].
      rewrite Hs in Hv. destruct Hv as [[<- | []] | Hv]; [auto|].
      apply (IH (fst (report ts e)) v); auto.
Qed.

(** A drain of successes does not end a [modeRepeat]. *)
Lemma repeat_stays (es : list error) :
  forall ts,
    ts_mode ts = modeRepeat -> ts_err ts = None -> first_failure es = None ->
    ts_mode (fst (report_all ts es)) = modeRepeat /\
    ts_err (fst (report_all ts es)) = None /\
    sends (snd (report_all ts es)) = [].
Proof.
  induction es as [|e es IH]; intros ts Hm He Hff.
  - simpl; auto.
  - destruct e as [x|]; [discriminate|]. simpl in Hff.
    destruct (report_all_cons ts None es) as [-> ->].
    destruct (report_fields ts None) as (_ & _ & _ & He1 & _).
    rewrite Hm, He in He1; simpl in He1.
    destruct (report_finishes ts None) as [[Hs Hm1] | (_ & _ & _ & _ & Hrep)];
      [|exfalso; apply (Hrep Hm); exact He1].
    rewrite Hm in Hm1. destruct (IH _ Hm1 He1 Hff) as (IH1 & IH2 & IH3).
    rewrite sends_app, Hs, IH3. auto.
Qed.

(** The recorded error of [modeRun] and [modeRepeat], over a run of
    reports by tasks that were running. *)
Lemma run_all (es : list error) :
  forall ts,
    ts_mode ts = modeRun \/ ts_mode ts = modeRepeat ->
    0 <= ts_running ts <= int_max -> len es <= ts_running ts ->
    let final :=
      match ts_err ts with Some x => Some x | None => first_failure es end in
    ts_err (fst (report_all ts es)) = final /\
    (forall v, In v (sends (snd (report_all ts es))) -> v = final) /\
    (ts_mode ts = modeRun -> es <> [] -> len es = ts_running ts ->
     sends (snd (report_all ts es)) = [final]).
Proof.
  induction es as [|e es IH]; intros ts Hm Hr Hl final.
  - subst final; simpl. destruct (ts_err ts); repeat split; auto;
      try (intros v []); congruence.
  - destruct (report_all_cons ts e es) as [-> ->].
    destruct (report_fields ts e) as (Hrun & _ & _ & He & _).
    assert (Hlen : len (e :: es) = len es + 1)
      by (unfold len; simpl Datatypes.length; lia).
    assert (Hpos : 0 <= len es) by (unfold len; lia).
    rewrite wrap_small in Hrun
      by (unfold in_int, int_min, int_max in *; lia).
    assert (He1 : ts_err (fst (report ts e)) =
                  match ts_err ts with Some x => Some x | None => e end)
      by (rewrite He; destruct Hm as [-> | ->]; destruct (ts_err ts); reflexivity).
    assert (Hfin : final =
              match ts_err (fst (report ts e)) with
              | Some x => Some x
              | None => first_failure es
              end).
    { subst final. rewrite He1. destruct (ts_err ts); [reflexivity|].
      destruct e; reflexivity. }
    destruct (report_finishes ts e) as [[Hs Hm1] | (Hs & _ & Hm1 & Hle & _)].
    + assert (Hm' : ts_mode (fst (report ts e)) = modeRun \/
                    ts_mode (fst (report ts e)) = modeRepeat)
        by (rewrite Hm1; exact Hm).
      destruct (IH (fst (report ts e)) Hm') as (IH1 & IH2 & IH3);
        [rewrite Hrun; lia | rewrite Hrun; lia |].
      rewrite sends_app, Hs, Hfin. simpl. repeat split; auto.
      intros HR _ Hfull. destruct es as [|e' es'].
      * exfalso.
        assert (Hd : ts_mode (fst (report ts e)) = modeDone).
        { apply report_completes; [congruence | | congruence].
          rewrite wrap_small
            by (unfold in_int, int_min, int_max in *; lia).
          unfold len in *; simpl Datatypes.length in *; lia. }
        congruence.
      * apply IH3; [congruence | discriminate | rewrite Hrun; lia].
    + assert (Hnil : es = []).
      { destruct es; [reflexivity|]. unfold len in *.
        simpl Datatypes.length in *. lia. }
      subst es. simpl. rewrite app_nil_r, Hs, Hfin. simpl.
      destruct (ts_err (fst (report ts e))); repeat split; auto;
        intros v [<- | []]; reflexivity.
Qed.

(** When the reports are as many as the counter says, the last of them
    ends the orchestration and sends the recorded error. *)
Lemma drain (es : list error) :
  forall ts,
    ts_mode ts <> modeInit -> ts_mode ts <> modeDone ->
    0 <= ts_running ts <= int_max ->
    es <> [] -> len es = ts_running ts ->
    (ts_mode ts = modeRepeat -> ts_err (fst (report_all ts es)) <> None) ->
    ts_mode (fst (report_all ts es)) = modeDone /\
    sends (snd (report_all ts es)) = [ts_err (fst (report_all ts es))].
Proof.
  induction es as [|e es IH]; intros ts Hni Hnd Hr Hne Hl Hrep;
    [congruence|].
  destruct (report_all_cons ts e es) as [E1 E2]. rewrite E1, E2 in *.
  destruct (report_fields ts e) as (Hrun & _).
  assert (Hlen : len (e :: es) = len es + 1)
    by (unfold len; simpl Datatypes.length; lia).
  assert (Hpos : 0 <= len es) by (unfold len; lia).
  assert (Hw : wrap (ts_running ts - 1) = ts_running ts - 1)
    by (apply wrap_small; unfold in_int, int_min, int_max in *; lia).
  rewrite Hw in Hrun.
  destruct es as [|e' es'].
  - simpl in *. rewrite app_nil_r.
    assert (Hd : ts_mode (fst (report ts e)) = modeDone).
    { apply report_completes; [exact Hnd | | exact Hrep].
      rewrite Hw. unfold len in *; simpl in *; lia. }
    split; [exact Hd|].
    destruct (report_finishes ts e) as [[_ Hm] | (Hs & _)];
      [congruence | exact Hs].
  - destruct (report_finishes ts e) as [[Hs Hm] | (_ & _ & _ & Hle & _)].
    + destruct (IH (fst (report ts e))) as [I1 I2];
        try (rewrite Hm; assumption); try (rewrite Hrun; lia);
        try discriminate.
      rewrite sends_app, Hs. simpl. auto.
    + exfalso. rewrite Hrun in Hle. unfold len in *.
      simpl Datatypes.length in *. lia.
Qed.

End ManyReports.

(** * The claims about [report] *)

Section ReportClaims.

(** C1, counterexample.  Two tasks under [Run]; the first to report
    succeeds, the second fails with [boom].  The first outcome observed is
    the success, no failure came before it, and yet the result recorded,
    and sent on [done] for [Run] to return, is [boom]. *)
Lemma run_success_first_not_recorded :
  ts_mode run2 = modeRun /\
  hd_error [None; boom] = Some None /\
  ts_err (fst (report_all run2 [None; boom])) = boom /\
  sends (snd (report_all run2 [None; boom])) = [boom] /\
  boom <> None.
Proof.
  repeat split; try reflexivity. discriminate.
Qed.

(** C1, as amended.  In [modeRun] and [modeRepeat] the recorded result is
    the first failure reported, not the first outcome: a success leaves the
    field nil, and the next failure fills it.  For every sequence [es] of
    reports by tasks that were running, starting with nothing recorded, the
    recorded result is the first failure of [es], or nil when [es] has
    none; nothing else is sent on [done]; and when these were all the tasks
    of a [Run], exactly that value is sent, which is what [Run] returns. *)
Theorem run_records_first_failure (ts : Tasks) (es : list error) :
  ts_mode ts = modeRun \/ ts_mode ts = modeRepeat ->
  ts_err ts = None ->
  0 <= ts_running ts <= int_max ->
  len es <= ts_running ts ->
  ts_err (fst (report_all ts es)) = first_failure es /\
  (forall v, In v (sends (snd (report_all ts es))) -> v = first_failure es) /\
  (ts_mode ts = modeRun -> es <> [] -> len es = ts_running ts ->
   sends (snd (report_all ts es)) = [first_failure es]).
Proof.
  intros Hm He Hr Hl.
  pose proof (run_all es ts Hm Hr Hl) as H. rewrite He in H. exact H.
Qed.

Lemma run_records_first_failure_witness :
  (ts_mode run2 = modeRun \/ ts_mode run2 = modeRepeat) /\
  ts_err run2 = None /\
  0 <= ts_running run2 <= int_max /\
  len [None; boom] <= ts_running run2 /\
  ts_err (fst (report_all run2 [None; boom])) = first_failure [None; boom] /\
  sends (snd (report_all run2 [None; boom])) = [first_failure [None; boom]].
Proof.
  assert (Hm : ts_mode run2 = modeRun \/ ts_mode run2 = modeRepeat)
    by (left; reflexivity).
  assert (He : ts_err run2 = None) by reflexivity.
  assert (Hr : 0 <= ts_running run2 <= int_max)
    by (split; intro Hc; discriminate Hc).
  assert (Hl : len [None; boom] <= ts_running run2)
    by (intro Hc; discriminate Hc).
  destruct (run_records_first_failure run2 [None; boom] Hm He Hr Hl)
    as (H1 & _ & H3).
  refine (conj Hm (conj He (conj Hr (conj Hl (conj H1 _))))).
  apply H3; [reflexivity | discriminate | reflexivity].
Defined.

(** C3.  In [modeRace] every report calls [cancel]; the report made while
    [first] is true records its outcome and clears [first], a later one
    records nothing.  So over every sequence of reports of a race the
    recorded result is the first outcome, success or failure, and nothing
    else is sent on [done]; and when the reports are those of all the
    running tasks, the last of them ends the race and the first outcome is
    sent, once: it is what [Race] returns. *)
Theorem race_first_report_wins (ts : Tasks) (e : error) (es : list error) :
  ts_mode ts = modeRace ->
  In Cancel (snd (report ts e)) /\
  ts_err (fst (report ts e)) = (if ts_first ts then e else ts_err ts) /\
  ts_first (fst (report ts e)) = false /\
  (ts_first ts = true ->
   ts_err (fst (report_all ts (e :: es))) = e /\
   (forall v, In v (sends (snd (report_all ts (e :: es)))) -> v = e) /\
   (0 <= ts_running ts <= int_max -> len (e :: es) = ts_running ts ->
    ts_mode (fst (report_all ts (e :: es))) = modeDone /\
    sends (snd (report_all ts (e :: es))) = [e])).
Proof.
  intros Hm.
  destruct (report_fields ts e) as (_ & _ & _ & He & Hf).
  rewrite Hm in He, Hf.
  split; [|split; [exact He|split; [exact Hf|]]].
  - clear He Hf.
    destruct ts as [m pend r f err c cf d]; simpl in Hm; subst m.
    unfold report, report_switch, report_finish; simpl.
    destruct f; simpl; destruct (wrap (r - 1) >? 0); simpl; auto.
  - intros Hfirst. rewrite Hfirst in He.
    assert (Hrec : ts_err (fst (report_all ts (e :: es))) = e).
    { destruct (report_all_cons ts e es) as [-> _].
      assert (H' : ts_mode (fst (report ts e)) = modeDone \/
                   (ts_mode (fst (report ts e)) = modeRace /\
                    ts_first (fst (report ts e)) = false)).
      { destruct (report_finishes ts e) as [[_ H1] | (_ & _ & H1 & _)];
          auto. right; split; congruence. }
      destruct (settled es _ H') as [S1 _]. congruence. }
    split; [exact Hrec|]. split.
    + destruct (report_all_cons ts e es) as [_ ->].
      assert (H' : ts_mode (fst (report ts e)) = modeDone \/
                   (ts_mode (fst (report ts e)) = modeRace /\
                    ts_first (fst (report ts e)) = false)).
      { destruct (report_finishes ts e) as [[_ H1] | (_ & _ & H1 & _)];
          auto. right; split; congruence. }
      destruct (settled es _ H') as [_ S2]. rewrite He in S2.
      intros v Hv. rewrite sends_app in Hv. apply in_app_or in Hv.
      destruct Hv as [Hv | Hv]; [|auto].
      destruct (report_finishes ts e) as [[Hs _] | (Hs & _)];
        rewrite Hs in Hv; simpl in Hv; [tauto|].
      destruct Hv as [<- | []]. exact He.
    + intros Hr Hl.
      destruct (drain (e :: es) ts) as [D1 D2]; auto;
        try (rewrite Hm; discriminate); try discriminate.
      split; [exact D1|]. rewrite D2, Hrec. reflexivity.
Qed.

Lemma race_first_report_wins_witness :
  ts_mode race2 = modeRace /\
  ts_first race2 = true /\
  0 <= ts_running race2 <= int_max /\
  len [None; boom] = ts_running race2 /\
  In Cancel (snd (report race2 None)) /\
  ts_err (fst (report_all race2 [None; boom])) = None /\
  ts_mode (fst (report_all race2 [None; boom])) = modeDone /\
  sends (snd (report_all race2 [None; boom])) = [None].
Proof.
  assert (Hm : ts_mode race2 = modeRace) by reflexivity.
  assert (Hr : 0 <= ts_running race2 <= int_max)
    by (split; intro Hc; discriminate Hc).
  assert (Hl : len [None; boom] = ts_running race2) by reflexivity.
  destruct (race_first_report_wins race2 None [boom] Hm) as (H1 & _ & _ & H4).
  destruct (H4 eq_refl) as (H5 & _ & H6).
  exact (conj Hm (conj eq_refl (conj Hr (conj Hl (conj H1 (conj H5
           (H6 Hr Hl))))))).
Defined.

(** C4.  A [Repeat] start puts the [Wait] task behind the pending ones and
    starts them all.  A report in [modeRepeat] ends the orchestration, that
    is sets [modeDone] and sends on [done], exactly when the counter is not
    above zero and the recorded result is a failure.  So a [Repeat] never
    sends a success, and a drain of successes, down to a counter of zero or
    below, neither sends nor ends it. *)
Theorem repeat_ends_on_failure_only
        (ts0 : Tasks) (ctx : Context) (ts : Tasks) (e : error)
        (es : list error) :
  ts_mode ts0 = modeInit ->
  ts_mode ts = modeRepeat ->
  (launched (snd (fst (Repeat ts0 ctx))) =
     tl (ts_pending ts0 ++ [Wait]) ++ [hd Wait (ts_pending ts0 ++ [Wait])] /\
   In Wait (launched (snd (fst (Repeat ts0 ctx)))) /\
   ts_mode (fst (fst (Repeat ts0 ctx))) = modeRepeat /\
   ts_running (fst (fst (Repeat ts0 ctx))) = len (ts_pending ts0) + 1 /\
   snd (Repeat ts0 ctx) = Awaits) /\
  (ts_mode (fst (report ts e)) = modeDone <->
     ts_running (fst (report ts e)) <= 0 /\
     ts_err (fst (report ts e)) <> None) /\
  (ts_mode (fst (report ts e)) = modeDone ->
     sends (snd (report ts e)) = [ts_err (fst (report ts e))]) /\
  (ts_mode (fst (report ts e)) <> modeDone ->
     ts_mode (fst (report ts e)) = modeRepeat /\
     sends (snd (report ts e)) = []) /\
  (forall v, In v (sends (snd (report_all ts es))) -> v <> None) /\
  (ts_err ts = None -> first_failure es = None ->
     ts_mode (fst (report_all ts es)) = modeRepeat /\
     sends (snd (report_all ts es)) = []).
Proof.
  intros H0 Hm. split; [|split; [|split; [|split; [|split]]]].
  - destruct ts0 as [m pend r f err c cf d]; simpl in H0; subst m.
    unfold Repeat, do; simpl.
    destruct pend as [|t0 rest]; simpl.
    + unfold len; simpl. repeat split; auto.
    + assert (HL : forall c' l t,
                launched (map (Go c') l ++ [Call c' t]) = l ++ [t])
        by (intros c' l t; induction l; simpl; congruence).
      rewrite HL. repeat split.
      * rewrite <- app_assoc. apply in_or_app. right.
        apply in_or_app. left. left. reflexivity.
      * unfold len. simpl Datatypes.length. rewrite length_app. simpl. lia.
  - destruct (report_fields ts e) as (Hrun & _).
    destruct (report_finishes ts e) as [[_ H1] | (_ & _ & H1 & H2 & H3)].
    + split; [congruence|]. intros [Hle Hne].
      apply report_completes; [congruence | | auto].
      rewrite <- Hrun. exact Hle.
    + split; auto.
  - intros Hd.
    destruct (report_finishes ts e) as [[_ H1] | (H1 & _)]; [congruence|auto].
  - intros Hd.
    destruct (report_finishes ts e) as [[H1 H2] | (_ & _ & H1 & _)];
      [split; congruence | contradiction].
  - intros v Hv. apply (repeat_sends es ts v); auto.
  - intros He Hff. destruct (repeat_stays es ts Hm He Hff) as (H1 & _ & H3).
    auto.
Qed.

Lemma repeat_ends_on_failure_only_witness :
  ts_mode (New [Noop]) = modeInit /\
  ts_mode repeat2 = modeRepeat /\
  launched (snd (fst (Repeat (New [Noop]) Background))) = [Wait; Noop] /\
  ts_mode (fst (report_all repeat2 [None; None; None])) = modeRepeat /\
  sends (snd (report_all repeat2 [None; None; None])) = [].
Proof.
  assert (H0 : ts_mode (New [Noop]) = modeInit) by reflexivity.
  assert (Hm : ts_mode repeat2 = modeRepeat) by reflexivity.
  destruct (repeat_ends_on_failure_only (New [Noop]) Background repeat2 None
              [None; None; None] H0 Hm)
    as ((H1 & _) & _ & _ & _ & _ & H6).
  exact (conj H0 (conj Hm (conj H1 (H6 eq_refl eq_refl)))).
Defined.

End ReportClaims.

(** * The claims about whole executions *)

Section Executions.

Lemma act_Some (w : World) (ts : Tasks) (eff : list effect) (n : nat)
      (w' : World) :
  act w ts eff n = Some w' ->
  w_ts w' = ts /\ w_log w' = w_log w ++ eff /\
  w_live w' = (n + launches eff)%nat.
Proof.
  unfold act. destruct (Z.of_nat (n + launches eff) <=? int_max);
    [|discriminate].
  intros H; injection H as <-; auto.
Qed.

Lemma report_no_launch (ts : Tasks) (e : error) :
  launches (snd (report ts e)) = O.
Proof.
  destruct ts as [m pend r f err c cf d].
  unfold report, report_switch, report_finish; simpl.
  destruct m, err, e, f; simpl;
    destruct (wrap (r - 1) >? 0); reflexivity.
Qed.

Lemma step_report (w w' : World) (e : error) :
  step w (EvReport e) = Some w' ->
  w_live w = S (w_live w') /\
  w_ts w' = fst (report (w_ts w) e) /\
  w_log w' = w_log w ++ snd (report (w_ts w) e).
Proof.
  unfold step. destruct (w_live w) as [|n]; [discriminate|].
  destruct (report (w_ts w) e) as [ts' eff] eqn:E. intros H.
  apply act_Some in H. destruct H as (H1 & H2 & H3).
  pose proof (report_no_launch (w_ts w) e) as H0. rewrite E in H0.
  simpl in *. rewrite H0 in H3. repeat split; auto. lia.
Qed.

Lemma step_ts (w w' : World) (ev : event) :
  step w ev = Some w' ->
  w_ts w' =
    match ev with
    | EvAdd tasks => fst (Add (w_ts w) tasks)
    | EvRun ctx => fst (fst (Run (w_ts w) ctx))
    | EvRace ctx => fst (fst (Race (w_ts w) ctx))
    | EvRepeat ctx => fst (fst (Repeat (w_ts w) ctx))
    | EvReport e => fst (report (w_ts w) e)
    end.
Proof.
  destruct ev; intros H; try (apply step_report in H; tauto); simpl in H.
  - destruct (Add (w_ts w) tasks); apply act_Some in H; tauto.
  - destruct (Run (w_ts w) ctx) as [[? ?] ?]; apply act_Some in H; tauto.
  - destruct (Race (w_ts w) ctx) as [[? ?] ?]; apply act_Some in H; tauto.
  - destruct (Repeat (w_ts w) ctx) as [[? ?] ?]; apply act_Some in H; tauto.
Qed.

Lemma do_rejects (ts : Tasks) (ctx : Context) (m : mode) :
  ts_mode ts <> modeInit ->
  do ts ctx m =
    (ts, [],
     Returns (Some (match ts_mode ts with
                    | modeDone => ErrFinished
                    | _ => ErrRunning
                    end))).
Proof.
  unfold do. destruct (ts_mode ts); auto. congruence.
Qed.

Lemma failure_fixed_step (w w' : World) (ev : event) (x : err_value) :
  step w ev = Some w' ->
  failure_fixed (w_ts w) x -> failure_fixed (w_ts w') x.
Proof.
  intros HS (He & Hm & Hf). apply step_ts in HS. rewrite HS. clear HS.
  unfold failure_fixed.
  destruct ev; unfold Run, Race, Repeat; rewrite ?do_rejects by exact Hm;
    simpl; auto.
  - unfold Add. destruct (ts_mode (w_ts w)) eqn:E; simpl; rewrite ?E; auto;
      congruence.
  - destruct (report_fields (w_ts w) err) as (_ & _ & _ & He1 & Hf1).
    assert (Hmode : ts_mode (fst (report (w_ts w) err)) = ts_mode (w_ts w) \/
                    ts_mode (fst (report (w_ts w) err)) = modeDone)
      by (destruct (report_finishes (w_ts w) err) as [[_ H] | (_ & _ & H & _)];
          auto).
    split; [|split].
    + rewrite He1, He. destruct (ts_mode (w_ts w)) eqn:E; simpl; auto.
      rewrite (Hf eq_refl). reflexivity.
    + destruct Hmode as [-> | ->]; [exact Hm | discriminate].
    + destruct Hmode as [H | H]; rewrite H; [|discriminate].
      intros E. rewrite Hf1, E. reflexivity.
Qed.

Lemma failure_fixed_exec (evs : list event) :
  forall (w w' : World) (x : err_value),
    exec w evs = Some w' ->
    failure_fixed (w_ts w) x -> failure_fixed (w_ts w') x.
Proof.
  induction evs as [|ev evs IH]; intros w w' x H HF; simpl in H.
  - injection H as <-. exact HF.
  - destruct (step w ev) as [w1|] eqn:S; [|discriminate].
    eapply IH; eauto using failure_fixed_step.
Qed.

Lemma Inv_failure_fixed (evs : list event) (w : World) (x : err_value) :
  Inv evs w -> ts_err (w_ts w) = Some x -> failure_fixed (w_ts w) x.
Proof.
  intros (_ & _ & HI) He. unfold live_inv in HI. unfold failure_fixed.
  split; [exact He|].
  destruct (ts_mode (w_ts w)); try (split; congruence).
  - destruct HI as (_ & _ & Hn & _). congruence.
  - split; [discriminate|]. intros _.
    destruct (ts_first (w_ts w)); [|reflexivity].
    destruct HI as (_ & _ & (_ & Hn) & _). congruence.
Qed.

(** C2.  After every execution from a fresh orchestrator, whatever the
    order of starts, adds and reports: at most one value was sent on
    [done]; one was sent exactly when the mode is [modeDone]; one was sent
    as soon as every started task has reported, given for a [Repeat] that
    a failure was among the reports; a report that sends is one made while
    the mode was not yet [modeDone], that brings the counter, and the
    number of running tasks, to zero, and it sets [modeDone]; a report made
    in [modeDone] has no effect at all on the outside. *)
Theorem done_written_once (p : list Task) (evs : list event) (w : World) :
  exec (fresh p) evs = Some w ->
  (List.length (sends (w_log w)) <= 1)%nat /\
  (ts_mode (w_ts w) = modeDone <-> List.length (sends (w_log w)) = 1%nat) /\
  (w_live w = O -> reports evs <> [] ->
   (started evs = Some modeRepeat -> first_failure (reports evs) <> None) ->
   List.length (sends (w_log w)) = 1%nat) /\
  (forall e w', step w (EvReport e) = Some w' ->
     (sends (w_log w') <> sends (w_log w) ->
      ts_mode (w_ts w) <> modeDone /\
      ts_running (w_ts w') = 0 /\ w_live w' = O /\
      ts_mode (w_ts w') = modeDone) /\
     (ts_mode (w_ts w) = modeDone ->
      w_log w' = w_log w /\ ts_mode (w_ts w') = modeDone)).
Proof.
  intros H. pose proof (exec_Inv p evs w H) as HI.
  assert (Hcount : (ts_mode (w_ts w) = modeDone /\
                    List.length (sends (w_log w)) = 1%nat) \/
                   (ts_mode (w_ts w) <> modeDone /\ sends (w_log w) = [])).
  { destruct HI as (_ & _ & HL). unfold live_inv in HL.
    destruct (ts_mode (w_ts w)).
    - right. destruct HL as (_ & -> & _). split; [discriminate|reflexivity].
    - right. split; [discriminate|tauto].
    - right. split; [discriminate|tauto].
    - right. split; [discriminate|tauto].
    - left. destruct HL as (-> & _). auto. }
  split; [|split; [|split]].
  - destruct Hcount as [[_ ->] | [_ ->]]; simpl; lia.
  - destruct Hcount as [[Hd Hl] | [Hd Hl]]; [tauto|].
    rewrite Hl. simpl. split; [contradiction | discriminate].
  - intros Hz Hrep Hfail.
    destruct Hcount as [[_ Hl] | [Hnd _]]; [exact Hl|]. exfalso.
    destruct HI as (_ & _ & HL). unfold live_inv in HL.
    destruct (ts_mode (w_ts w)) eqn:E.
    + apply Hrep. tauto.
    + apply Hrep. tauto.
    + apply Hrep. tauto.
    + destruct HL as (Hst & _ & Herr & Hnil).
      apply (Hfail Hst). rewrite <- Herr. auto.
    + congruence.
  - intros e w' HS.
    pose proof (step_report w w' e HS) as (Hlive & Hts & Hlog).
    assert (HI' : Inv (evs ++ [EvReport e]) w') by (eapply Inv_step; eauto).
    destruct HI' as (_ & Hrun' & _).
    split.
    + intros Hne. rewrite Hlog, sends_app in Hne.
      destruct (report_finishes (w_ts w) e)
        as [[Hs _] | (_ & Hnd & Hd & Hle & _)].
      * rewrite Hs, app_nil_r in Hne. contradiction.
      * rewrite <- Hts in Hd, Hle. rewrite Hrun' in *.
        assert (w_live w' = O) by lia.
        repeat split; auto. lia.
    + intros Hd. rewrite Hts, Hlog, report_Done by exact Hd.
      simpl. rewrite app_nil_r. auto.
Qed.

Lemma done_written_once_witness :
  exec (fresh two_tasks) sample_run = Some sample_world /\
  List.length (sends (w_log sample_world)) = 1%nat.
Proof.
  assert (H : exec (fresh two_tasks) sample_run = Some sample_world)
    by reflexivity.
  destruct (done_written_once two_tasks sample_run sample_world H)
    as (_ & _ & H3 & _).
  refine (conj H (H3 eq_refl _ _)); discriminate.
Defined.

(** C10.  After every execution from a fresh orchestrator: a recorded
    failure stays recorded through everything that follows; one more
    report records its outcome in [modeRun] and [modeRepeat] only while
    the field is nil, in [modeRace] only while [first] is true, and never
    in [modeDone]; and a failure sent on [done] is the first failure of all
    reports when the start was a [Run] or a [Repeat], the first outcome of
    all reports when it was a [Race]. *)
Theorem recorded_failure_is_final (p : list Task) (evs : list event)
        (w : World) :
  exec (fresh p) evs = Some w ->
  (forall x evs' w',
     ts_err (w_ts w) = Some x -> exec w evs' = Some w' ->
     ts_err (w_ts w') = Some x) /\
  (forall e,
     ts_err (fst (report (w_ts w) e)) =
       match ts_mode (w_ts w) with
       | modeRun | modeRepeat =>
           if is_nil (ts_err (w_ts w)) then e else ts_err (w_ts w)
       | modeRace => if ts_first (w_ts w) then e else ts_err (w_ts w)
       | _ => ts_err (w_ts w)
       end) /\
  (forall x, In (Some x) (sends (w_log w)) ->
     match started evs with
     | Some modeRace => hd_error (reports evs) = Some (Some x)
     | _ => first_failure (reports evs) = Some x
     end).
Proof.
  intros H. pose proof (exec_Inv p evs w H) as HI.
  split; [|split].
  - intros x evs' w' He H'.
    apply (failure_fixed_exec evs' w w' x H').
    eapply Inv_failure_fixed; eauto.
  - intros e. destruct (report_fields (w_ts w) e) as (_ & _ & _ & He & _).
    exact He.
  - intros x Hin. destruct HI as (_ & _ & HL). unfold live_inv in HL.
    destruct (ts_mode (w_ts w)).
    + destruct HL as (_ & Hlog & _). rewrite Hlog in Hin. destruct Hin.
    + destruct HL as (_ & Hs & _). rewrite Hs in Hin. destruct Hin.
    + destruct HL as (_ & Hs & _). rewrite Hs in Hin. destruct Hin.
    + destruct HL as (_ & Hs & _). rewrite Hs in Hin. destruct Hin.
    + destruct HL as (Hs & es1 & es2 & Hr & Hne & Hst).
      rewrite Hs in Hin. destruct Hin as [Hx | []].
      rewrite Hr. destruct (started evs) as [[]|]; try contradiction.
      * rewrite first_failure_app, <- Hst, Hx. reflexivity.
      * destruct es1 as [|e1 es1]; [congruence|]. simpl in *.
        rewrite Hst, Hx. reflexivity.
      * destruct Hst as [Hst _].
        rewrite first_failure_app, <- Hst, Hx. reflexivity.
Qed.

Lemma recorded_failure_is_final_witness :
  exec (fresh two_tasks) sample_run = Some sample_world /\
  first_failure (reports sample_run) = Some (Errorf "boom").
Proof.
  assert (H : exec (fresh two_tasks) sample_run = Some sample_world)
    by reflexivity.
  destruct (recorded_failure_is_final two_tasks sample_run sample_world H)
    as (_ & _ & H3).
  refine (conj H (H3 (Errorf "boom") _)).
  left; reflexivity.
Defined.

End Executions.

(** * The claims about starting and adding *)

Section Admission.

Lemma launched_start (c : option Context) (t0 : Task) (rest : list Task) :
  launched (map (Go c) rest ++ [Call c t0]) = rest ++ [t0].
Proof. induction rest; simpl; congruence. Qed.

Lemma launches_launched (eff : list effect) :
  launches eff = List.length (launched eff).
Proof.
  unfold launches. induction eff as [|x eff IH]; simpl; [reflexivity|].
  destruct x; simpl; auto.
Qed.

(** C5.  [Run] and [Race] on an orchestrator that has no pending task
    return [ErrNoTasks] and start nothing; [Repeat] on the same
    orchestrator does not return: it starts its [Wait] task and waits on
    [done]. *)
Theorem empty_start_fails (ts : Tasks) (ctx : Context) :
  ts_mode ts = modeInit -> ts_pending ts = [] ->
  snd (Run ts ctx) = Returns (Some ErrNoTasks) /\
  snd (Race ts ctx) = Returns (Some ErrNoTasks) /\
  launched (snd (fst (Run ts ctx))) = [] /\
  launched (snd (fst (Race ts ctx))) = [] /\
  snd (Repeat ts ctx) = Awaits /\
  launched (snd (fst (Repeat ts ctx))) = [Wait].
Proof.
  intros Hm Hp. unfold Run, Race, Repeat, do. rewrite Hm, Hp. simpl.
  repeat split; reflexivity.
Qed.

Lemma empty_start_fails_witness :
  ts_mode (New []) = modeInit /\ ts_pending (New []) = [] /\
  snd (Run (New []) Background) = Returns (Some ErrNoTasks) /\
  snd (Repeat (New []) Background) = Awaits.
Proof.
  destruct (empty_start_fails (New []) Background eq_refl eq_refl)
    as (H1 & _ & _ & _ & H5 & _).
  exact (conj eq_refl (conj eq_refl (conj H1 H5))).
Defined.

(** C6, counterexample.  [Run] on [New()] returns [ErrNoTasks], and the
    orchestrator it leaves is in [modeRun], not in [modeInit]; a second
    [Run] on it is rejected with [ErrRunning]. *)
Lemma NoTasks_start_leaves_modeRun :
  snd (Run (New []) Background) = Returns (Some ErrNoTasks) /\
  ts_mode (fst (fst (Run (New []) Background))) = modeRun /\
  ts_mode (fst (fst (Run (New []) Background))) <> modeInit /\
  snd (Run (fst (fst (Run (New []) Background))) Background) =
    Returns (Some ErrRunning).
Proof.
  repeat split; try reflexivity. discriminate.
Qed.

(** C6, as amended.  [ErrNoTasks] is found after the mode is set and the
    state of the lifetime is initialized.  A [Run] or [Race] that returns
    it leaves the orchestrator in the mode asked for, with no pending task,
    a counter of zero, [first] set and the derived context cancelled; every
    later start on it is rejected with [ErrRunning]. *)
Theorem NoTasks_after_mode_is_set
        (ts : Tasks) (ctx ctx' : Context) (m m' : mode) :
  ts_mode ts = modeInit -> ts_pending ts = [] ->
  m = modeRun \/ m = modeRace ->
  do ts ctx m =
    (mkTasks m [] 0 true (ts_err ts) (Some (WithCancel ctx))
             (Some (CancelOf (WithCancel ctx))) (Some (MakeChan 1)),
     [Cancel], Returns (Some ErrNoTasks)) /\
  do (fst (fst (do ts ctx m))) ctx' m' =
    (fst (fst (do ts ctx m)), [], Returns (Some ErrRunning)).
Proof.
  intros Hm Hp Hmm. unfold do at 1 3 4. rewrite Hm, Hp.
  destruct Hmm as [-> | ->]; simpl; split; reflexivity.
Qed.

Lemma NoTasks_after_mode_is_set_witness :
  ts_mode (New []) = modeInit /\ ts_pending (New []) = [] /\
  (modeRace = modeRun \/ modeRace = modeRace) /\
  do (fst (fst (do (New []) Background modeRace))) Background modeRun =
    (fst (fst (do (New []) Background modeRace)), [],
     Returns (Some ErrRunning)).
Proof.
  assert (Hm : modeRace = modeRun \/ modeRace = modeRace)
    by (right; reflexivity).
  destruct (NoTasks_after_mode_is_set (New []) Background Background
              modeRace modeRun eq_refl eq_refl Hm) as (_ & H2).
  exact (conj eq_refl (conj eq_refl (conj Hm H2))).
Defined.

Lemma started_step (w w' : World) (ev : event) :
  step w ev = Some w' ->
  start_of ev <> None \/ ts_mode (w_ts w) <> modeInit ->
  ts_mode (w_ts w') <> modeInit.
Proof.
  intros HS H. apply step_ts in HS. rewrite HS. clear HS.
  destruct ev; simpl in H; unfold Run, Race, Repeat.
  - destruct H as [H | H]; [congruence|].
    unfold Add. destruct (ts_mode (w_ts w)) eqn:E; simpl; congruence.
  - unfold do. destruct (ts_mode (w_ts w)) eqn:E; simpl; try congruence.
    destruct (ts_pending (w_ts w)); simpl; discriminate.
  - unfold do. destruct (ts_mode (w_ts w)) eqn:E; simpl; try congruence.
    destruct (ts_pending (w_ts w)); simpl; discriminate.
  - unfold do. destruct (ts_mode (w_ts w)) eqn:E; simpl; try congruence.
    destruct (ts_pending (w_ts w)); simpl; discriminate.
  - destruct H as [H | H]; [congruence|].
    destruct (report_finishes (w_ts w) err) as [[_ Hm] | (_ & _ & Hm & _)];
      rewrite Hm; [exact H | discriminate].
Qed.

Lemma started_exec (evs : list event) :
  forall w w', exec w evs = Some w' ->
    ts_mode (w_ts w) <> modeInit -> ts_mode (w_ts w') <> modeInit.
Proof.
  induction evs as [|ev evs IH]; intros w w' H Hm; simpl in H.
  - injection H as <-. exact Hm.
  - destruct (step w ev) as [w1|] eqn:S; [|discriminate].
    apply (IH w1 w' H). eapply started_step; eauto.
Qed.

(** C7.  A start on an orchestrator whose mode is not [modeInit] changes
    nothing and starts nothing: it returns [ErrFinished] in [modeDone] and
    [ErrRunning] in [modeRun], [modeRace] and [modeRepeat].  And after any
    start, accepted or not, followed by any actions, the mode is not
    [modeInit], so that every further start is rejected in this way: an
    orchestrator is started at most once. *)
Theorem start_at_most_once
        (ts : Tasks) (ctx ctx' : Context) (m m' : mode)
        (w w1 w2 : World) (ev : event) (evs : list event) :
  ts_mode ts <> modeInit ->
  start_of ev <> None -> step w ev = Some w1 -> exec w1 evs = Some w2 ->
  do ts ctx m =
    (ts, [],
     Returns (Some (match ts_mode ts with
                    | modeDone => ErrFinished
                    | _ => ErrRunning
                    end))) /\
  ts_mode (w_ts w2) <> modeInit /\
  do (w_ts w2) ctx' m' =
    (w_ts w2, [],
     Returns (Some (match ts_mode (w_ts w2) with
                    | modeDone => ErrFinished
                    | _ => ErrRunning
                    end))).
Proof.
  intros Hm Hev HS HE.
  assert (H2 : ts_mode (w_ts w2) <> modeInit).
  { apply (started_exec evs w1 w2 HE). eapply started_step; eauto. }
  split; [apply do_rejects; exact Hm|].
  split; [exact H2 | apply do_rejects; exact H2].
Qed.

Lemma start_at_most_once_witness :
  ts_mode run2 <> modeInit /\
  start_of (EvRun Background) <> None /\
  step (fresh two_tasks) (EvRun Background) = Some started_world /\
  exec started_world [EvReport None; EvReport boom] = Some sample_world /\
  do run2 Background modeRace = (run2, [], Returns (Some ErrRunning)) /\
  do (w_ts sample_world) Background modeRun =
    (w_ts sample_world, [], Returns (Some ErrFinished)).
Proof.
  assert (Hm : ts_mode run2 <> modeInit) by discriminate.
  assert (Hev : start_of (EvRun Background) <> None) by discriminate.
  assert (HS : step (fresh two_tasks) (EvRun Background) = Some started_world)
    by reflexivity.
  assert (HE : exec started_world [EvReport None; EvReport boom] =
               Some sample_world) by reflexivity.
  destruct (start_at_most_once run2 Background Background modeRace modeRun
              (fresh two_tasks) started_world sample_world
              (EvRun Background) [EvReport None; EvReport boom]
              Hm Hev HS HE) as (H1 & _ & H3).
  exact (conj Hm (conj Hev (conj HS (conj HE (conj H1 H3))))).
Defined.

(** C9.  In [modeInit], [Add] puts the tasks behind the pending ones, in
    order, and starts nothing; three tasks and then two, added to [New(p)]
    before a [Run], make that [Run] start the tasks of [p] and these five,
    each once.  In every other mode [Add] adds the number of tasks to the
    counter and starts each task with [go] against the context stored in
    the orchestrator.  This holds in [modeDone] too, where the mode stays
    [modeDone] and the report of such a late task changes the counter only:
    no error is recorded, nothing is cancelled or sent. *)
Theorem Add_appends_or_launches
        (ts ts' td : Tasks) (tasks p a b : list Task) (ctx : Context)
        (e : error) :
  ts_mode ts = modeInit ->
  ts_mode ts' <> modeInit -> in_int (ts_running ts' + len tasks) ->
  ts_mode td = modeDone ->
  Add ts tasks = (set_pending (ts_pending ts ++ tasks) ts, []) /\
  (ts_pending (fst (Add (fst (Add (New p) a)) b)) = p ++ a ++ b /\
   Permutation
     (launched (snd (fst (Run (fst (Add (fst (Add (New p) a)) b)) ctx))))
     (p ++ a ++ b) /\
   launches (snd (fst (Run (fst (Add (fst (Add (New p) a)) b)) ctx))) =
     (List.length p + List.length a + List.length b)%nat) /\
  Add ts' tasks =
    (set_running (ts_running ts' + len tasks) ts',
     map (Go (ts_ctx ts')) tasks) /\
  (ts_mode (fst (Add td tasks)) = modeDone /\
   report (fst (Add td tasks)) e =
     (set_running (wrap (ts_running (fst (Add td tasks)) - 1))
                  (fst (Add td tasks)), [])).
Proof.
  intros Hm Hm' Hin Hd. split; [|split; [|split]].
  - unfold Add. rewrite Hm. reflexivity.
  - unfold Add, Run, do; simpl. rewrite <- app_assoc.
    split; [reflexivity|].
    destruct (p ++ a ++ b) as [|t0 rest] eqn:E; simpl.
    + apply (f_equal (@List.length Task)) in E.
      rewrite !length_app in E. simpl in E.
      split; [constructor | unfold launches; simpl; lia].
    + rewrite launches_launched, launched_start.
      split; [apply Permutation_sym, Permutation_cons_append|].
      apply (f_equal (@List.length Task)) in E.
      rewrite !length_app in *. simpl in *. lia.
  - unfold Add. rewrite (wrap_small _ Hin).
    destruct (ts_mode ts'); congruence.
  - assert (Hd' : ts_mode (fst (Add td tasks)) = modeDone)
      by (unfold Add; rewrite Hd; exact Hd).
    split; [exact Hd' | apply report_Done; exact Hd'].
Qed.

Lemma Add_appends_or_launches_witness :
  ts_mode (New []) = modeInit /\
  ts_mode run2 <> modeInit /\ in_int (ts_running run2 + len [Noop]) /\
  ts_mode finished = modeDone /\
  launches (snd (fst (Run (fst (Add (fst (Add (New []) three)) two))
                          Background))) = 5%nat /\
  Add run2 [Noop] =
    (set_running 3 run2, [Go (Some (WithCancel Background)) Noop]).
Proof.
  assert (Hm' : ts_mode run2 <> modeInit) by discriminate.
  assert (Hin : in_int (ts_running run2 + len [Noop]))
    by (split; intro Hc; discriminate Hc).
  destruct (Add_appends_or_launches (New []) run2 finished [Noop] [] three two
              Background None eq_refl Hm' Hin eq_refl)
    as (_ & (_ & _ & H2) & H3 & _).
  exact (conj eq_refl (conj Hm' (conj Hin (conj eq_refl (conj H2 H3))))).
Defined.

End Admission.

(** * The panic barrier *)

Section PanicBarrier.

Variable stack : list Byte.byte.
Variable ts : Tasks.

(** A body that returns: its error is reported, once, with the flag set
    or not. *)
Lemma run_returned (Panic : bool) (e : error) :
  run Panic stack ts (Returned e) =
  (fst (report ts e), snd (report ts e), None).
Proof.
  unfold run; simpl. destruct Panic; simpl; destruct (report ts e); auto.
Qed.

(** A body that panics with a value that is not nil, the barrier on: the
    panic stops, and [ErrPanic] with the value and the stack is reported,
    once. *)
Lemma run_catches_panic (v : string) :
  run false stack ts (Panicked (Some v)) =
  (fst (report ts (Some (ErrPanic (Some v) stack))),
   snd (report ts (Some (ErrPanic (Some v) stack))), None).
Proof.
  unfold run; simpl.
  destruct (report ts (Some (ErrPanic (Some v) stack))); auto.
Qed.

(** The barrier off: the panic goes on with its value, after the deferred
    function has reported the nil [err] of the body that never returned. *)
Lemma run_propagates_panic (p : any) :
  run true stack ts (Panicked p) =
  (fst (report ts None), snd (report ts None), Some p).
Proof.
  unfold run; simpl. destruct (report ts None); auto.
Qed.

(** C8, where the code departs from it.  With the barrier on, a body that
    calls [panic(nil)] is not turned into an [ErrPanic]: [recover()]
    answers nil, the test [p != nil] fails, the panic is stopped and the
    nil [err] is reported, a success.  With this as the only task of a
    [Run], nil is sent on [done]: the [Run] returns success. *)
Theorem run_panic_nil_reports_success :
  run false stack ts (Panicked None) =
    (fst (report ts None), snd (report ts None), None) /\
  sends (snd (fst (run false stack run1 (Panicked None)))) = [None].
Proof.
  split; [|reflexivity].
  unfold run; simpl. destruct (report ts None); auto.
Qed.

End PanicBarrier.

(** * The other version of the file *)

Section OtherVersion.

(** There an empty [Run] or [Race] returns nil and goes to [modeDone]
    without sending anything. *)
Remark V1_empty_start_returns_nil (ts : Tasks) (ctx : Context) (m : mode) :
  ts_mode ts = modeInit -> ts_pending ts = [] -> m <> modeRepeat ->
  snd (V1.do ts ctx m) = Returns None /\
  ts_mode (fst (fst (V1.do ts ctx m))) = modeDone /\
  snd (fst (V1.do ts ctx m)) = [].
Proof.
  intros Hm Hp Hne. unfold V1.do. rewrite Hm, Hp. simpl.
  destruct m; simpl; auto. congruence.
Qed.

(** There a panic of the body leaves [run] before [report] is called. *)
Remark V1_run_has_no_barrier (ts : Tasks) (p : any) :
  V1.run ts (Panicked p) = (ts, [], Some p).
Proof. reflexivity. Qed.

End OtherVersion.

(** * Further properties of executions *)

Section MoreExecutions.

Lemma added_snoc (evs : list event) (ev : event) :
  added (evs ++ [ev]) =
  added evs ++ match ev with EvAdd tasks => tasks | _ => [] end.
Proof.
  induction evs as [|x evs IH]; simpl.
  - destruct ev; simpl; rewrite ?app_nil_r; reflexivity.
  - destruct x; rewrite IH; rewrite ?app_assoc; reflexivity.
Qed.

Lemma start_ctx_snoc (evs : list event) (ev : event) :
  start_ctx (evs ++ [ev]) =
  match start_ctx evs with Some c => Some c | None => ctx_of ev end.
Proof.
  induction evs as [|x evs IH]; simpl.
  - destruct (ctx_of ev); reflexivity.
  - destruct (ctx_of x); auto.
Qed.

Lemma launched_app (a b : list effect) :
  launched (a ++ b) = launched a ++ launched b.
Proof.
  induction a as [|x a IH]; simpl; [reflexivity|].
  destruct x; simpl; rewrite IH; reflexivity.
Qed.

Lemma launched_map_go (c : option Context) (l : list Task) :
  launched (map (Go c) l) = l.
Proof. induction l; simpl; congruence. Qed.

Lemma report_no_launched (ts : Tasks) (e : error) :
  launched (snd (report ts e)) = [].
Proof.
  pose proof (report_no_launch ts e) as H.
  rewrite launches_launched in H.
  destruct (launched (snd (report ts e))); [reflexivity|discriminate].
Qed.

(** The mode and the first start go together. *)
Lemma Inv_started (evs : list event) (w : World) :
  Inv evs w ->
  (ts_mode (w_ts w) = modeInit <-> started evs = None) /\
  (ts_mode (w_ts w) <> modeInit -> ts_mode (w_ts w) <> modeDone ->
   started evs = Some (ts_mode (w_ts w))).
Proof.
  intros (_ & _ & HL). unfold live_inv in HL.
  destruct (ts_mode (w_ts w)); split; try tauto;
    try (split; [discriminate | destruct HL as (H & _); congruence]);
    try (intros; destruct HL as (H & _); congruence).
  split; [discriminate|].
  destruct HL as (_ & es1 & es2 & _ & _ & H).
  intros Hn. rewrite Hn in H. contradiction.
Qed.

Lemma step_log (w w' : World) (ev : event) :
  step w ev = Some w' -> w_log w' = w_log w ++ effects_of (w_ts w) ev.
Proof.
  destruct ev; intros H; try (apply step_report in H; tauto); simpl in H;
    simpl.
  - destruct (Add (w_ts w) tasks); apply act_Some in H; tauto.
  - destruct (Run (w_ts w) ctx) as [[? ?] ?]; apply act_Some in H; tauto.
  - destruct (Race (w_ts w) ctx) as [[? ?] ?]; apply act_Some in H; tauto.
  - destruct (Repeat (w_ts w) ctx) as [[? ?] ?]; apply act_Some in H; tauto.
Qed.

(** Induction over the executions of a fresh orchestrator, with the
    invariant at hand. *)
Lemma exec_induction (p : list Task) (P : list event -> World -> Prop) :
  P [] (fresh p) ->
  (forall evs w ev w',
     exec (fresh p) evs = Some w -> Inv evs w -> P evs w ->
     step w ev = Some w' -> P (evs ++ [ev]) w') ->
  forall evs w, exec (fresh p) evs = Some w -> P evs w.
Proof.
  intros H0 HS evs.
  induction evs as [|ev evs IH] using rev_ind; intros w H.
  - injection H as <-. exact H0.
  - rewrite exec_app in H.
    destruct (exec (fresh p) evs) as [w0|] eqn:E; [|discriminate].
    simpl in H. destruct (step w0 ev) as [w1|] eqn:S; [|discriminate].
    injection H as <-.
    eapply HS; eauto. apply (exec_Inv p evs w0 E).
Qed.

(** What a start does to an orchestrator in [modeInit]. *)
Lemma do_Init (ts : Tasks) (ctx : Context) (m : mode) :
  ts_mode ts = modeInit ->
  let tasks := ts_pending ts ++ synthetic (Some m) in
  ts_mode (fst (fst (do ts ctx m))) = m /\
  ts_pending (fst (fst (do ts ctx m))) = [] /\
  ts_ctx (fst (fst (do ts ctx m))) = Some (WithCancel ctx) /\
  ts_err (fst (fst (do ts ctx m))) = ts_err ts /\
  launched (snd (fst (do ts ctx m))) = tl tasks ++ firstn 1 tasks /\
  (forall x c, In x (snd (fst (do ts ctx m))) -> launch_ctx x = Some c ->
     c = Some (WithCancel ctx)).
Proof.
  intros Hm tasks. unfold do. rewrite Hm.
  assert (Ht : (if mode_eqb m modeRepeat
                then ts_pending ts ++ [Wait] else ts_pending ts) = tasks).
  { subst tasks. destruct m; simpl; rewrite ?app_nil_r; reflexivity. }
  rewrite Ht. clear Ht.
  destruct tasks as [|t0 rest]; simpl.
  - repeat split; auto. intros x c [<- | []]; discriminate.
  - rewrite launched_start. repeat split; auto.
    intros x c Hin Hc. apply in_app_or in Hin. destruct Hin as [Hin | Hin].
    + apply in_map_iff in Hin. destruct Hin as (t & <- & _).
      simpl in Hc. congruence.
    + destruct Hin as [<- | []]. simpl in Hc. congruence.
Qed.

Lemma report_effects (ts : Tasks) (e : error) :
  snd (report ts e) =
  match ts_mode ts with
  | modeRun | modeRepeat => if is_nil e then [] else [Cancel]
  | modeRace => [Cancel]
  | _ => []
  end ++ map Send (sends (snd (report ts e))).
Proof.
  destruct ts as [m pend r f err c cf d].
  unfold report, report_switch, report_finish; simpl.
  destruct m, err, e, f; simpl;
    destruct (wrap (r - 1) >? 0); reflexivity.
Qed.

Lemma count_start (t : Task) (tasks : list Task) :
  count_occ Task_eq_dec (tl tasks ++ firstn 1 tasks) t =
  count_occ Task_eq_dec tasks t.
Proof.
  destruct tasks as [|t0 rest]; simpl; [reflexivity|].
  rewrite count_occ_app. simpl.
  destruct (Task_eq_dec t0 t); lia.
Qed.

Lemma do_Init_count (ts : Tasks) (ctx : Context) (m : mode) (t : Task) :
  ts_mode ts = modeInit ->
  count_occ Task_eq_dec (launched (snd (fst (do ts ctx m)))) t =
  (count_occ Task_eq_dec (ts_pending ts) t +
   count_occ Task_eq_dec (synthetic (Some m)) t)%nat.
Proof.
  intros Hm. destruct (do_Init ts ctx m Hm) as (_ & _ & _ & _ & D5 & _).
  rewrite D5, count_start, count_occ_app. reflexivity.
Qed.

(** Once started, an action touches neither the pending list nor, the
    tasks of an [Add] apart, the set of started tasks. *)
Lemma step_started (ts : Tasks) (ev : event) :
  ts_mode ts <> modeInit ->
  let ts' :=
    match ev with
    | EvAdd tasks => fst (Add ts tasks)
    | EvRun ctx => fst (fst (Run ts ctx))
    | EvRace ctx => fst (fst (Race ts ctx))
    | EvRepeat ctx => fst (fst (Repeat ts ctx))
    | EvReport e => fst (report ts e)
    end in
  ts_pending ts' = ts_pending ts /\
  ts_ctx ts' = ts_ctx ts /\
  launched (effects_of ts ev) =
    match ev with EvAdd tasks => tasks | _ => [] end /\
  (forall x c, In x (effects_of ts ev) -> launch_ctx x = Some c ->
     c = ts_ctx ts).
Proof.
  intros Hm.
  destruct ev; simpl; unfold Run, Race, Repeat;
    rewrite ?do_rejects by exact Hm; simpl;
    try (repeat split; auto; intros x c []).
  - unfold Add. destruct (ts_mode ts) eqn:E; [congruence| | | |]; simpl;
      rewrite launched_map_go; repeat split; auto;
      intros x c Hin Hc; apply in_map_iff in Hin;
      destruct Hin as (t & <- & _); simpl in Hc; congruence.
  - destruct (report_fields ts err) as (_ & Hp & Hc & _).
    rewrite report_no_launched. repeat split; auto.
    intros x c Hin Hl. rewrite report_effects in Hin.
    apply in_app_or in Hin. destruct Hin as [Hin | Hin].
    + destruct (ts_mode ts), (is_nil err); simpl in Hin;
        try contradiction; destruct Hin as [<- | []]; discriminate.
    + apply in_map_iff in Hin. destruct Hin as (v & <- & _). discriminate.
Qed.

Ltac counts :=
  repeat (progress (rewrite ?app_nil_r, ?launched_app, ?launched_map_go,
                    ?count_occ_app, ?count_start in *; simpl in *));
  try lia.

(** X2.  Over every execution of a fresh orchestrator no task is lost and
    none is started twice: the tasks still pending together with the tasks
    started so far are, up to order, the tasks given to [New], the tasks
    given to [Add], and the one [Wait] task of a [Repeat].  Once a start
    was accepted, nothing is pending. *)
Theorem tasks_started_once (p : list Task) (evs : list event) (w : World) :
  exec (fresh p) evs = Some w ->
  Permutation (ts_pending (w_ts w) ++ launched (w_log w))
              (p ++ added evs ++ synthetic (started evs)) /\
  (ts_mode (w_ts w) <> modeInit -> ts_pending (w_ts w) = []).
Proof.
  intros H.
  assert (HP : (forall t,
                  count_occ Task_eq_dec
                    (ts_pending (w_ts w) ++ launched (w_log w)) t =
                  count_occ Task_eq_dec
                    (p ++ added evs ++ synthetic (started evs)) t) /\
               (ts_mode (w_ts w) <> modeInit -> ts_pending (w_ts w) = [])).
  { revert evs w H. apply exec_induction.
    - simpl. split; [|intros Hc; exfalso; apply Hc; reflexivity].
      intros t. rewrite !app_nil_r. reflexivity.
    - intros evs w ev w' HE HI [IH1 IH2] HS.
      pose proof (step_ts _ _ _ HS) as Hts.
      pose proof (step_log _ _ _ HS) as Hlog.
      destruct (Inv_started evs w HI) as [Hst1 Hst2].
      rewrite Hts, Hlog, added_snoc, started_snoc.
      destruct (ts_mode (w_ts w)) eqn:Hm.
      + (* modeInit *)
        assert (Hs : started evs = None) by (apply Hst1; reflexivity).
        rewrite Hs in *.
        destruct ev; simpl start_of; simpl effects_of;
          unfold Run, Race, Repeat.
        * unfold Add. rewrite Hm. simpl. split.
          -- intros t. specialize (IH1 t). counts.
          -- intros Hc. exfalso. apply Hc. exact Hm.
        * destruct (do_Init (w_ts w) ctx modeRun Hm)
            as (D1 & D2 & _).
          pose proof (fun t => do_Init_count (w_ts w) ctx modeRun t Hm) as D5.
          rewrite D2. split; [|auto]. intros t.
          specialize (IH1 t). specialize (D5 t).
          rewrite launched_app, !count_occ_app in *. rewrite D5.
          simpl in *. lia.
        * destruct (do_Init (w_ts w) ctx modeRace Hm)
            as (D1 & D2 & _).
          pose proof (fun t => do_Init_count (w_ts w) ctx modeRace t Hm) as D5.
          rewrite D2. split; [|auto]. intros t.
          specialize (IH1 t). specialize (D5 t).
          rewrite launched_app, !count_occ_app in *. rewrite D5.
          simpl in *. lia.
        * destruct (do_Init (w_ts w) ctx modeRepeat Hm)
            as (D1 & D2 & _).
          pose proof (fun t => do_Init_count (w_ts w) ctx modeRepeat t Hm) as D5.
          rewrite D2. split; [|auto]. intros t.
          specialize (IH1 t). specialize (D5 t).
          rewrite launched_app, !count_occ_app in *. rewrite D5.
          simpl in *. lia.
        * exfalso. apply step_report in HS. destruct HS as (HL & _).
          destruct HI as (_ & _ & HL'). unfold live_inv in HL'.
          rewrite Hm in HL'. destruct HL' as (H0 & _). congruence.
      + (assert (Hne : ts_mode (w_ts w) <> modeInit)
           by (rewrite Hm; discriminate);
         destruct (step_started (w_ts w) ev Hne) as (S1 & _ & S3 & _);
         assert (Hs : exists m0, started evs = Some m0)
           by (destruct (started evs) as [m0|];
               [eexists; reflexivity
               | exfalso; destruct Hst1 as [_ Hb]; specialize (Hb eq_refl);
                 discriminate]);
         destruct Hs as [m0 Hs]; rewrite Hs in *;
         assert (IH2' : ts_pending (w_ts w) = [])
           by (apply IH2; discriminate);
         rewrite S1, IH2';
         split;
         [ intros t; specialize (IH1 t);
           rewrite launched_app, S3; rewrite IH2' in IH1;
           destruct ev; counts
         | reflexivity ]).
      + (assert (Hne : ts_mode (w_ts w) <> modeInit)
           by (rewrite Hm; discriminate);
         destruct (step_started (w_ts w) ev Hne) as (S1 & _ & S3 & _);
         assert (Hs : exists m0, started evs = Some m0)
           by (destruct (started evs) as [m0|];
               [eexists; reflexivity
               | exfalso; destruct Hst1 as [_ Hb]; specialize (Hb eq_refl);
                 discriminate]);
         destruct Hs as [m0 Hs]; rewrite Hs in *;
         assert (IH2' : ts_pending (w_ts w) = [])
           by (apply IH2; discriminate);
         rewrite S1, IH2';
         split;
         [ intros t; specialize (IH1 t);
           rewrite launched_app, S3; rewrite IH2' in IH1;
           destruct ev; counts
         | reflexivity ]).
      + (assert (Hne : ts_mode (w_ts w) <> modeInit)
           by (rewrite Hm; discriminate);
         destruct (step_started (w_ts w) ev Hne) as (S1 & _ & S3 & _);
         assert (Hs : exists m0, started evs = Some m0)
           by (destruct (started evs) as [m0|];
               [eexists; reflexivity
               | exfalso; destruct Hst1 as [_ Hb]; specialize (Hb eq_refl);
                 discriminate]);
         destruct Hs as [m0 Hs]; rewrite Hs in *;
         assert (IH2' : ts_pending (w_ts w) = [])
           by (apply IH2; discriminate);
         rewrite S1, IH2';
         split;
         [ intros t; specialize (IH1 t);
           rewrite launched_app, S3; rewrite IH2' in IH1;
           destruct ev; counts
         | reflexivity ]).
      + (assert (Hne : ts_mode (w_ts w) <> modeInit)
           by (rewrite Hm; discriminate);
         destruct (step_started (w_ts w) ev Hne) as (S1 & _ & S3 & _);
         assert (Hs : exists m0, started evs = Some m0)
           by (destruct (started evs) as [m0|];
               [eexists; reflexivity
               | exfalso; destruct Hst1 as [_ Hb]; specialize (Hb eq_refl);
                 discriminate]);
         destruct Hs as [m0 Hs]; rewrite Hs in *;
         assert (IH2' : ts_pending (w_ts w) = [])
           by (apply IH2; discriminate);
         rewrite S1, IH2';
         split;
         [ intros t; specialize (IH1 t);
           rewrite launched_app, S3; rewrite IH2' in IH1;
           destruct ev; counts
         | reflexivity ]).
  }
  destruct HP as [HP1 HP2]. split; [|exact HP2].
  apply (Permutation_count_occ Task_eq_dec). exact HP1.
Qed.

Lemma tasks_started_once_witness :
  exec (fresh two_tasks) sample_run = Some sample_world /\
  Permutation (ts_pending (w_ts sample_world) ++ launched (w_log sample_world))
              (two_tasks ++ added sample_run ++ synthetic (started sample_run)).
Proof.
  assert (H : exec (fresh two_tasks) sample_run = Some sample_world)
    by reflexivity.
  exact (conj H (proj1 (tasks_started_once two_tasks sample_run sample_world H))).
Defined.

Lemma step_live (w w' : World) (ev : event) :
  step w ev = Some w' ->
  (w_live w' + List.length (report_of ev) =
   w_live w + List.length (launched (effects_of (w_ts w) ev)))%nat.
Proof.
  rewrite <- launches_launched.
  destruct ev; intros H; simpl in *.
  - destruct (Add (w_ts w) tasks); apply act_Some in H; simpl; lia.
  - destruct (Run (w_ts w) ctx) as [[? ?] ?]; apply act_Some in H; simpl; lia.
  - destruct (Race (w_ts w) ctx) as [[? ?] ?]; apply act_Some in H; simpl; lia.
  - destruct (Repeat (w_ts w) ctx) as [[? ?] ?]; apply act_Some in H;
      simpl; lia.
  - rewrite report_no_launch. apply step_report in H. lia.
Qed.

(** X1.  Over every execution of a fresh orchestrator the counter
    [running] is the number of tasks started so far minus the number of
    reports made so far; it is never negative and never wraps around. *)
Theorem running_counts_live (p : list Task) (evs : list event) (w : World) :
  exec (fresh p) evs = Some w ->
  ts_running (w_ts w) =
    len (launched (w_log w)) - len (reports evs) /\
  0 <= ts_running (w_ts w) <= int_max.
Proof.
  intros H.
  assert (HL : (w_live w + List.length (reports evs) =
                List.length (launched (w_log w)))%nat).
  { revert evs w H. apply exec_induction; [reflexivity|].
    intros evs w ev w' _ _ IH HS.
    pose proof (step_live _ _ _ HS) as HL.
    rewrite (step_log _ _ _ HS), launched_app, reports_snoc, !length_app.
    lia. }
  pose proof (exec_Inv p evs w H) as (Hb & Hr & _).
  unfold len. split; lia.
Qed.

Lemma running_counts_live_witness :
  exec (fresh two_tasks) [EvRun Background; EvReport None] =
    Some (mkWorld (fst (report run2 None)) 1 (w_log started_world)) /\
  ts_running (fst (report run2 None)) = 1.
Proof.
  assert (H : exec (fresh two_tasks) [EvRun Background; EvReport None] =
              Some (mkWorld (fst (report run2 None)) 1 (w_log started_world)))
    by reflexivity.
  destruct (running_counts_live two_tasks _ _ H) as [H1 _].
  exact (conj H H1).
Defined.

Lemma start_ctx_started (evs : list event) :
  start_ctx evs = None <-> started evs = None.
Proof.
  induction evs as [|ev evs IH]; simpl; [tauto|].
  destruct ev; simpl; try tauto; split; discriminate.
Qed.

(** X3.  Over every execution of a fresh orchestrator all tasks run
    against one and the same context: the context stored in the
    orchestrator is the child derived, with [WithCancel], from the context
    handed to the first start, and every task started, by the start or by a
    later [Add], is started against it, never against a nil context. *)
Theorem one_context (p : list Task) (evs : list event) (w : World) :
  exec (fresh p) evs = Some w ->
  ts_ctx (w_ts w) = option_map WithCancel (start_ctx evs) /\
  (forall x c, In x (w_log w) -> launch_ctx x = Some c ->
     c = ts_ctx (w_ts w) /\ c <> None).
Proof.
  revert evs w. apply exec_induction.
  - simpl. split; [reflexivity | intros x c []].
  - intros evs w ev w' HE HI [IH1 IH2] HS.
    pose proof (step_ts _ _ _ HS) as Hts.
    pose proof (step_log _ _ _ HS) as Hlog.
    destruct (Inv_started evs w HI) as [Hst1 _].
    rewrite Hts, Hlog, start_ctx_snoc.
    destruct (ts_mode (w_ts w)) eqn:Hm.
    + assert (Hs : start_ctx evs = None)
        by (apply start_ctx_started; apply Hst1; reflexivity).
      assert (Hlog0 : w_log w = []).
      { destruct HI as (_ & _ & HL). unfold live_inv in HL.
        rewrite Hm in HL. tauto. }
      rewrite Hs, Hlog0 in *. simpl.
      destruct ev; simpl; unfold Run, Race, Repeat.
      * unfold Add. rewrite Hm. simpl. split; [exact IH1 | intros x c []].
      * destruct (do_Init (w_ts w) ctx modeRun Hm)
          as (_ & _ & D3 & _ & _ & D6).
        rewrite D3. split; [reflexivity|]. intros x c Hin Hc.
        rewrite (D6 x c Hin Hc). split; [reflexivity | discriminate].
      * destruct (do_Init (w_ts w) ctx modeRace Hm)
          as (_ & _ & D3 & _ & _ & D6).
        rewrite D3. split; [reflexivity|]. intros x c Hin Hc.
        rewrite (D6 x c Hin Hc). split; [reflexivity | discriminate].
      * destruct (do_Init (w_ts w) ctx modeRepeat Hm)
          as (_ & _ & D3 & _ & _ & D6).
        rewrite D3. split; [reflexivity|]. intros x c Hin Hc.
        rewrite (D6 x c Hin Hc). split; [reflexivity | discriminate].
      * exfalso. apply step_report in HS. destruct HS as (HL & _).
        destruct HI as (_ & _ & HL'). unfold live_inv in HL'.
        rewrite Hm in HL'. destruct HL' as (H0 & _). congruence.
    + (assert (Hne : ts_mode (w_ts w) <> modeInit)
          by (rewrite Hm; discriminate);
        destruct (step_started (w_ts w) ev Hne) as (_ & S2 & _ & S4);
        destruct (start_ctx evs) as [c0|] eqn:Hs;
        [| exfalso; apply start_ctx_started in Hs;
           destruct Hst1 as [_ Hb]; specialize (Hb Hs); discriminate];
        rewrite S2; split; [exact IH1|];
        intros x c Hin Hc; apply in_app_or in Hin;
        destruct Hin as [Hin | Hin];
        [ exact (IH2 x c Hin Hc)
        | rewrite (S4 x c Hin Hc); split;
          [reflexivity | rewrite IH1; discriminate] ]).
    + (assert (Hne : ts_mode (w_ts w) <> modeInit)
          by (rewrite Hm; discriminate);
        destruct (step_started (w_ts w) ev Hne) as (_ & S2 & _ & S4);
        destruct (start_ctx evs) as [c0|] eqn:Hs;
        [| exfalso; apply start_ctx_started in Hs;
           destruct Hst1 as [_ Hb]; specialize (Hb Hs); discriminate];
        rewrite S2; split; [exact IH1|];
        intros x c Hin Hc; apply in_app_or in Hin;
        destruct Hin as [Hin | Hin];
        [ exact (IH2 x c Hin Hc)
        | rewrite (S4 x c Hin Hc); split;
          [reflexivity | rewrite IH1; discriminate] ]).
    + (assert (Hne : ts_mode (w_ts w) <> modeInit)
          by (rewrite Hm; discriminate);
        destruct (step_started (w_ts w) ev Hne) as (_ & S2 & _ & S4);
        destruct (start_ctx evs) as [c0|] eqn:Hs;
        [| exfalso; apply start_ctx_started in Hs;
           destruct Hst1 as [_ Hb]; specialize (Hb Hs); discriminate];
        rewrite S2; split; [exact IH1|];
        intros x c Hin Hc; apply in_app_or in Hin;
        destruct Hin as [Hin | Hin];
        [ exact (IH2 x c Hin Hc)
        | rewrite (S4 x c Hin Hc); split;
          [reflexivity | rewrite IH1; discriminate] ]).
    + (assert (Hne : ts_mode (w_ts w) <> modeInit)
          by (rewrite Hm; discriminate);
        destruct (step_started (w_ts w) ev Hne) as (_ & S2 & _ & S4);
        destruct (start_ctx evs) as [c0|] eqn:Hs;
        [| exfalso; apply start_ctx_started in Hs;
           destruct Hst1 as [_ Hb]; specialize (Hb Hs); discriminate];
        rewrite S2; split; [exact IH1|];
        intros x c Hin Hc; apply in_app_or in Hin;
        destruct Hin as [Hin | Hin];
        [ exact (IH2 x c Hin Hc)
        | rewrite (S4 x c Hin Hc); split;
          [reflexivity | rewrite IH1; discriminate] ]).
Qed.

Lemma one_context_witness :
  exec (fresh two_tasks) sample_run = Some sample_world /\
  ts_ctx (w_ts sample_world) = Some (WithCancel Background).
Proof.
  assert (H : exec (fresh two_tasks) sample_run = Some sample_world)
    by reflexivity.
  exact (conj H (proj1 (one_context two_tasks sample_run sample_world H))).
Defined.

(** X4.  With tasks added while the orchestration runs, the value sent on
    [done] is still fixed by the reports alone: the report that sends,
    sends the first failure of all reports made up to and including
    itself, or nil if there is none, when the start was a [Run] or a
    [Repeat], and the outcome of the very first report when it was a
    [Race]. *)
Theorem delivered_with_adds
        (p : list Task) (evs : list event) (w w' : World) (e : error) :
  exec (fresh p) evs = Some w ->
  step w (EvReport e) = Some w' ->
  sends (w_log w') <> sends (w_log w) ->
  sends (w_log w') =
    [match started evs with
     | Some modeRace => hd e (reports evs)
     | _ => first_failure (reports evs ++ [e])
     end].
Proof.
  intros H HS Hne.
  pose proof (exec_Inv p evs w H) as (_ & _ & HL).
  pose proof (step_report w w' e HS) as (Hlive & Hts & Hlog).
  rewrite Hlog, sends_app in *.
  destruct (report_fields (w_ts w) e) as (_ & _ & _ & He & _).
  destruct (report_finishes (w_ts w) e) as [[Hs _] | (Hs & Hnd & _)].
  - rewrite Hs, app_nil_r in Hne. contradiction.
  - rewrite Hs, He. unfold live_inv in HL.
    destruct (ts_mode (w_ts w)) eqn:Hm.
    + destruct HL as (H0 & _). congruence.
    + destruct HL as (-> & -> & -> & _). simpl.
      rewrite first_failure_app. simpl.
      destruct (first_failure (reports evs)), e; reflexivity.
    + destruct HL as (-> & -> & Hf & _). simpl.
      destruct (ts_first (w_ts w)).
      * destruct Hf as [-> _]. reflexivity.
      * destruct Hf as [es ->]. reflexivity.
    + destruct HL as (-> & -> & -> & _). simpl.
      rewrite first_failure_app. simpl.
      destruct (first_failure (reports evs)), e; reflexivity.
    + congruence.
Qed.

Lemma delivered_with_adds_witness :
  exec (fresh two_tasks)
       [EvRun Background; EvAdd [Noop]; EvReport None; EvReport None] =
    Some (mkWorld (fst (report_all (fst (Add run2 [Noop])) [None; None])) 1
                  (w_log started_world ++
                   [Go (Some (WithCancel Background)) Noop])) /\
  step (mkWorld (fst (report_all (fst (Add run2 [Noop])) [None; None])) 1
                (w_log started_world ++
                 [Go (Some (WithCancel Background)) Noop]))
       (EvReport boom) =
    Some (mkWorld (fst (report_all (fst (Add run2 [Noop])) [None; None; boom]))
                  0
                  (w_log started_world ++
                   [Go (Some (WithCancel Background)) Noop; Cancel;
                    Send boom])) /\
  sends (w_log started_world ++
         [Go (Some (WithCancel Background)) Noop; Cancel; Send boom]) =
    [boom].
Proof.
  assert (H : exec (fresh two_tasks)
                [EvRun Background; EvAdd [Noop]; EvReport None; EvReport None] =
              Some (mkWorld
                      (fst (report_all (fst (Add run2 [Noop])) [None; None])) 1
                      (w_log started_world ++
                       [Go (Some (WithCancel Background)) Noop])))
    by reflexivity.
  assert (HS : step (mkWorld
                       (fst (report_all (fst (Add run2 [Noop])) [None; None]))
                       1
                       (w_log started_world ++
                        [Go (Some (WithCancel Background)) Noop]))
                    (EvReport boom) =
               Some (mkWorld
                       (fst (report_all (fst (Add run2 [Noop]))
                                        [None; None; boom]))
                       0
                       (w_log started_world ++
                        [Go (Some (WithCancel Background)) Noop; Cancel;
                         Send boom])))
    by reflexivity.
  refine (conj H (conj HS _)).
  apply (delivered_with_adds two_tasks _ _ _ boom H HS).
  discriminate.
Defined.

Lemma before_send_app (l l' : list effect) :
  before_send (l ++ l') =
  match sends l with
  | [] => l ++ before_send l'
  | _ => before_send l
  end.
Proof.
  induction l as [|x l IH]; simpl; [reflexivity|].
  destruct x; simpl; try (rewrite IH; destruct (sends l); reflexivity).
  reflexivity.
Qed.

Lemma step_after (w w' : World) (ev : event) :
  step w ev = Some w' -> w_ts w' = after (w_ts w) ev.
Proof. intros H. rewrite (step_ts _ _ _ H). destruct ev; reflexivity. Qed.

(** An action that is not a report, on a started orchestrator. *)
Lemma after_started (ts : Tasks) (ev : event) :
  ts_mode ts <> modeInit -> report_of ev = [] ->
  ts_mode (after ts ev) = ts_mode ts /\
  ts_err (after ts ev) = ts_err ts /\
  ts_first (after ts ev) = ts_first ts /\
  sends (effects_of ts ev) = [].
Proof.
  intros Hm Hr.
  destruct ev; simpl in *; unfold Run, Race, Repeat;
    rewrite ?do_rejects by exact Hm; simpl; auto; [|discriminate].
  unfold Add. destruct (ts_mode ts) eqn:E; [congruence| | | |]; simpl;
    rewrite sends_map_go; auto.
Qed.

(** A start on an orchestrator in [modeInit]. *)
Lemma after_Init_start (ts : Tasks) (ev : event) (m : mode) :
  ts_mode ts = modeInit -> start_of ev = Some m ->
  ts_mode (after ts ev) = m /\
  ts_err (after ts ev) = ts_err ts /\
  ts_first (after ts ev) = true /\
  sends (effects_of ts ev) = [].
Proof.
  intros Hm Hs.
  destruct ev; simpl in Hs; try discriminate; injection Hs as <-;
    simpl; unfold Run, Race, Repeat, do; rewrite Hm; simpl;
    destruct (ts_pending ts); simpl; rewrite ?sends_start; auto.
Qed.

Lemma report_cancel (ts : Tasks) (e : error) (log : list effect) :
  sends log = [] ->
  (cancel_due ts -> In Cancel log) ->
  (cancel_due (fst (report ts e)) -> In Cancel (log ++ snd (report ts e))) /\
  (ts_mode ts <> modeInit -> ts_mode ts <> modeDone ->
   ts_mode (fst (report ts e)) = modeDone ->
   ts_err (fst (report ts e)) <> None \/ ts_mode ts = modeRace ->
   In Cancel (before_send (log ++ snd (report ts e)))).
Proof.
  intros Hs Hdue. rewrite before_send_app, Hs.
  destruct ts as [m pend r f err c cf d].
  unfold cancel_due, report, report_switch, report_finish in *;
    simpl in *.
  destruct m, err, e, f; simpl in *;
    destruct (wrap (r - 1) >? 0); simpl in *; split;
    try tauto; try congruence;
    intros; apply in_or_app;
    try (right; left; reflexivity);
    try (left; apply Hdue; congruence);
    try (exfalso; intuition congruence).
Qed.

(** X5.  Over every execution of a fresh orchestrator [cancel] is called
    whenever it is due: as soon as a failure is recorded in a [Run] or a
    [Repeat], and as soon as a [Race] has had its first report.  So a
    failure, and any outcome of a [Race], is sent on [done] only after
    [cancel] was called. *)
Theorem cancel_precedes_delivery
        (p : list Task) (evs : list event) (w : World) :
  exec (fresh p) evs = Some w ->
  (cancel_due (w_ts w) -> In Cancel (w_log w)) /\
  (forall v, In v (sends (w_log w)) ->
     v <> None \/ started evs = Some modeRace ->
     In Cancel (before_send (w_log w))).
Proof.
  intros H.
  assert (HP : (cancel_due (w_ts w) -> In Cancel (w_log w)) /\
               (ts_mode (w_ts w) = modeDone ->
                ts_err (w_ts w) <> None \/ started evs = Some modeRace ->
                In Cancel (before_send (w_log w)))).
  { revert evs w H. apply exec_induction.
    - simpl. split; [intros [] | discriminate].
    - intros evs w ev w' HE HI [IH1 IH2] HS.
      pose proof (step_after _ _ _ HS) as Hts.
      pose proof (step_log _ _ _ HS) as Hlog.
      destruct (Inv_started evs w HI) as [Hst1 Hst2].
      rewrite Hts, Hlog, started_snoc.
      destruct (report_of ev) as [|e0 l0] eqn:Hrep.
      + (* not a report *)
        destruct (ts_mode (w_ts w)) eqn:Hm.
        * destruct (start_of ev) as [m|] eqn:Hst.
          -- destruct (after_Init_start (w_ts w) ev m Hm Hst)
               as (A1 & A2 & A3 & _).
             assert (He : ts_err (w_ts w) = None).
             { destruct HI as (_ & _ & HL). unfold live_inv in HL.
               rewrite Hm in HL. tauto. }
             unfold cancel_due. rewrite A1, A2, A3, He.
             destruct ev; simpl in Hst; try discriminate;
               injection Hst as <-; split; try discriminate; congruence.
          -- destruct ev; simpl in Hst, Hrep; try discriminate.
             simpl. unfold Add, cancel_due. rewrite Hm. simpl. rewrite Hm.
             split; [intros [] | discriminate].
        * (assert (Hne : ts_mode (w_ts w) <> modeInit)
             by (rewrite Hm; discriminate);
           destruct (after_started (w_ts w) ev Hne Hrep)
             as (A1 & A2 & A3 & A4);
           unfold cancel_due in *; rewrite A1, A2, A3 in *;
           rewrite Hm in *;
           split; [|discriminate];
           intros Hd; apply in_or_app; left; apply IH1; exact Hd).
        * (assert (Hne : ts_mode (w_ts w) <> modeInit)
             by (rewrite Hm; discriminate);
           destruct (after_started (w_ts w) ev Hne Hrep)
             as (A1 & A2 & A3 & A4);
           unfold cancel_due in *; rewrite A1, A2, A3 in *;
           rewrite Hm in *;
           split; [|discriminate];
           intros Hd; apply in_or_app; left; apply IH1; exact Hd).
        * (assert (Hne : ts_mode (w_ts w) <> modeInit)
             by (rewrite Hm; discriminate);
           destruct (after_started (w_ts w) ev Hne Hrep)
             as (A1 & A2 & A3 & A4);
           unfold cancel_due in *; rewrite A1, A2, A3 in *;
           rewrite Hm in *;
           split; [|discriminate];
           intros Hd; apply in_or_app; left; apply IH1; exact Hd).
        * (assert (Hne : ts_mode (w_ts w) <> modeInit)
             by (rewrite Hm; discriminate);
           destruct (after_started (w_ts w) ev Hne Hrep)
             as (A1 & A2 & A3 & A4);
           unfold cancel_due in *; rewrite A1, A2 in *;
           rewrite Hm in *;
           split; [intros []|];
           intros _ Hv; rewrite before_send_app;
           destruct HI as (_ & _ & HL); unfold live_inv in HL;
           rewrite Hm in HL; destruct HL as (Hs & _); rewrite Hs;
           apply IH2; [reflexivity|];
           destruct (started evs); [exact Hv|];
           exfalso; destruct Hst1 as [_ Hb]; specialize (Hb eq_refl);
           discriminate).
      + destruct ev; simpl in Hrep; try discriminate. clear Hrep e0 l0.
        simpl after. simpl effects_of.
        destruct (ts_mode (w_ts w)) eqn:Hm.
        * exfalso. apply step_report in HS. destruct HS as (HL & _).
          destruct HI as (_ & _ & HL'). unfold live_inv in HL'.
          rewrite Hm in HL'. destruct HL' as (H0 & _). congruence.
        * (assert (Hne : ts_mode (w_ts w) <> modeInit)
             by (rewrite Hm; discriminate);
           assert (Hnd : ts_mode (w_ts w) <> modeDone)
             by (rewrite Hm; discriminate);
           assert (Hs : sends (w_log w) = [])
             by (destruct HI as (_ & _ & HL); unfold live_inv in HL;
                 rewrite Hm in HL; tauto);
           assert (Hst : started evs = Some (ts_mode (w_ts w)))
             by (rewrite Hm; apply Hst2; discriminate);
           destruct (report_cancel (w_ts w) err (w_log w) Hs IH1)
             as [R1 R2];
           split; [exact R1|];
           intros Hd Hv; rewrite Hst in Hv;
           apply R2;
           [ exact Hne | exact Hnd | exact Hd
           | destruct Hv as [Hv | Hv];
             [left; exact Hv | right; congruence] ]).
        * (assert (Hne : ts_mode (w_ts w) <> modeInit)
             by (rewrite Hm; discriminate);
           assert (Hnd : ts_mode (w_ts w) <> modeDone)
             by (rewrite Hm; discriminate);
           assert (Hs : sends (w_log w) = [])
             by (destruct HI as (_ & _ & HL); unfold live_inv in HL;
                 rewrite Hm in HL; tauto);
           assert (Hst : started evs = Some (ts_mode (w_ts w)))
             by (rewrite Hm; apply Hst2; discriminate);
           destruct (report_cancel (w_ts w) err (w_log w) Hs IH1)
             as [R1 R2];
           split; [exact R1|];
           intros Hd Hv; rewrite Hst in Hv;
           apply R2;
           [ exact Hne | exact Hnd | exact Hd
           | destruct Hv as [Hv | Hv];
             [left; exact Hv | right; congruence] ]).
        * (assert (Hne : ts_mode (w_ts w) <> modeInit)
             by (rewrite Hm; discriminate);
           assert (Hnd : ts_mode (w_ts w) <> modeDone)
             by (rewrite Hm; discriminate);
           assert (Hs : sends (w_log w) = [])
             by (destruct HI as (_ & _ & HL); unfold live_inv in HL;
                 rewrite Hm in HL; tauto);
           assert (Hst : started evs = Some (ts_mode (w_ts w)))
             by (rewrite Hm; apply Hst2; discriminate);
           destruct (report_cancel (w_ts w) err (w_log w) Hs IH1)
             as [R1 R2];
           split; [exact R1|];
           intros Hd Hv; rewrite Hst in Hv;
           apply R2;
           [ exact Hne | exact Hnd | exact Hd
           | destruct Hv as [Hv | Hv];
             [left; exact Hv | right; congruence] ]).
        * rewrite report_Done by exact Hm. simpl. rewrite app_nil_r.
          unfold cancel_due. simpl. rewrite Hm.
          split; [intros []|]. intros _ Hv. apply IH2; [reflexivity|].
          destruct (started evs); [exact Hv|].
          exfalso; destruct Hst1 as [_ Hb]; specialize (Hb eq_refl);
            discriminate.
  }
  destruct HP as [HP1 HP2]. split; [exact HP1|].
  intros v Hin Hv.
  pose proof (exec_Inv p evs w H) as (_ & _ & HL). unfold live_inv in HL.
  destruct (ts_mode (w_ts w)) eqn:Hm;
    try (destruct HL as (_ & Hs & _); rewrite Hs in Hin; destruct Hin).
  destruct HL as (Hs & _). rewrite Hs in Hin.
  destruct Hin as [<- | []]. apply HP2; auto.
Qed.

Lemma cancel_precedes_delivery_witness :
  exec (fresh two_tasks) sample_run = Some sample_world /\
  In boom (sends (w_log sample_world)) /\
  (boom <> None \/ started sample_run = Some modeRace) /\
  In Cancel (before_send (w_log sample_world)).
Proof.
  assert (H : exec (fresh two_tasks) sample_run = Some sample_world)
    by reflexivity.
  assert (Hin : In boom (sends (w_log sample_world)))
    by (left; reflexivity).
  assert (Hv : boom <> None \/ started sample_run = Some modeRace)
    by (left; discriminate).
  destruct (cancel_precedes_delivery two_tasks sample_run sample_world H)
    as [_ H2].
  exact (conj H (conj Hin (conj Hv (H2 boom Hin Hv)))).
Defined.

(** X6.  Over every execution of a fresh orchestrator the mode only moves
    forward: an action leaves the mode as it is, or it is the first start
    and takes [modeInit] to the mode asked for, or it is a report and takes
    a started orchestrator to [modeDone].  And [modeDone] is final. *)
Theorem mode_never_regresses
        (p : list Task) (evs evs' : list event) (w w' w'' : World)
        (ev : event) :
  exec (fresh p) evs = Some w -> step w ev = Some w' ->
  exec w' evs' = Some w'' ->
  mode_follows (ts_mode (w_ts w)) (ts_mode (w_ts w')) ev /\
  (ts_mode (w_ts w') = modeDone -> ts_mode (w_ts w'') = modeDone).
Proof.
  intros H HS HE. split.
  - pose proof (exec_Inv p evs w H) as HI.
    rewrite (step_after _ _ _ HS). unfold mode_follows.
    destruct (report_of ev) as [|e0 l0] eqn:Hrep.
    + destruct (ts_mode (w_ts w)) eqn:Hm.
      * destruct (start_of ev) as [m|] eqn:Hst.
        -- destruct (after_Init_start (w_ts w) ev m Hm Hst) as (A1 & _).
           right; left. split; [reflexivity | congruence].
        -- destruct ev; simpl in Hst, Hrep; try discriminate.
           left. simpl. unfold Add. rewrite Hm. exact Hm.
      * left. rewrite <- Hm. apply after_started; [congruence | exact Hrep].
      * left. rewrite <- Hm. apply after_started; [congruence | exact Hrep].
      * left. rewrite <- Hm. apply after_started; [congruence | exact Hrep].
      * left. rewrite <- Hm. apply after_started; [congruence | exact Hrep].
    + destruct ev; simpl in Hrep; try discriminate. simpl after.
      destruct (report_finishes (w_ts w) err)
        as [[_ Hm] | (_ & Hnd & Hd & _)]; [left; exact Hm|].
      right; right. repeat split; auto; [|discriminate].
      intros Hi. apply step_report in HS. destruct HS as (HL & _).
      destruct HI as (_ & _ & HL'). unfold live_inv in HL'.
      rewrite Hi in HL'. destruct HL' as (H0 & _). congruence.
  - clear H HS. revert w' HE.
    induction evs' as [|x evs' IH]; intros w' HE Hd.
    + injection HE as <-. exact Hd.
    + simpl in HE. destruct (step w' x) as [w1|] eqn:S; [|discriminate].
      apply (IH w1 HE). rewrite (step_after _ _ _ S).
      destruct (report_of x) as [|e0 l0] eqn:Hrep.
      * rewrite <- Hd. apply after_started; [congruence | exact Hrep].
      * destruct x; simpl in Hrep; try discriminate. simpl.
        rewrite report_Done by exact Hd. exact Hd.
Qed.

Lemma mode_never_regresses_witness :
  exec (fresh two_tasks) [] = Some (fresh two_tasks) /\
  step (fresh two_tasks) (EvRun Background) = Some started_world /\
  exec started_world [EvReport None; EvReport boom] = Some sample_world /\
  mode_follows modeInit modeRun (EvRun Background).
Proof.
  assert (H : exec (fresh two_tasks) [] = Some (fresh two_tasks))
    by reflexivity.
  assert (HS : step (fresh two_tasks) (EvRun Background) = Some started_world)
    by reflexivity.
  assert (HE : exec started_world [EvReport None; EvReport boom] =
               Some sample_world) by reflexivity.
  exact (conj H (conj HS (conj HE
           (proj1 (mode_never_regresses two_tasks [] _ _ _ _ _ H HS HE))))).
Defined.

End MoreExecutions.

(** * Orchestrations that run to their end *)

Section Completion.

(** X7.  An orchestration ends when every task it started has reported
    once.  Start a [Run], [Race] or [Repeat] on an orchestrator with at
    least one task to start (for a [Repeat] the [Wait] task is one), and
    let as many reports come in as tasks were started, in any order; for a
    [Repeat], let there be a failure among them.  Then the start waits on
    [done], the last report sets [modeDone], and exactly one value is
    sent: the first failure reported, or nil when all succeeded, for [Run]
    and [Repeat]; the first outcome reported for [Race]. *)
Theorem orchestration_completes
        (ts0 : Tasks) (ctx : Context) (m : mode) (es : list error) :
  ts_mode ts0 = modeInit -> ts_err ts0 = None ->
  m = modeRun \/ m = modeRace \/ m = modeRepeat ->
  es <> [] ->
  len es = len (ts_pending ts0 ++ synthetic (Some m)) ->
  len es <= int_max ->
  (m = modeRepeat -> first_failure es <> None) ->
  snd (do ts0 ctx m) = Awaits /\
  ts_mode (fst (report_all (fst (fst (do ts0 ctx m))) es)) = modeDone /\
  sends (snd (report_all (fst (fst (do ts0 ctx m))) es)) =
    [match m with
     | modeRace => hd None es
     | _ => first_failure es
     end].
Proof.
  intros H0 He0 Hm Hne Hl Hmax Hrep.
  assert (Hts : fst (fst (do ts0 ctx m)) =
                mkTasks m [] (len es) true None (Some (WithCancel ctx))
                        (Some (CancelOf (WithCancel ctx)))
                        (Some (MakeChan 1)) /\
                snd (do ts0 ctx m) = Awaits).
  { unfold do. rewrite H0, He0, Hl.
    assert (Ht : (if mode_eqb m modeRepeat
                  then ts_pending ts0 ++ [Wait] else ts_pending ts0) =
                 ts_pending ts0 ++ synthetic (Some m))
      by (destruct m; simpl; rewrite ?app_nil_r; reflexivity).
    rewrite Ht.
    destruct (ts_pending ts0 ++ synthetic (Some m)) as [|t0 rest] eqn:E.
    - exfalso. destruct es; [congruence|]. unfold len in Hl.
      simpl in Hl. lia.
    - simpl. auto. }
  destruct Hts as [Hts Haw]. rewrite Hts. clear Hts.
  set (ts := mkTasks m [] (len es) true None (Some (WithCancel ctx))
                     (Some (CancelOf (WithCancel ctx))) (Some (MakeChan 1))).
  assert (Hpos : 0 <= len es) by (unfold len; lia).
  assert (Hfinal : ts_err (fst (report_all ts es)) =
                   match m with
                   | modeRace => hd None es
                   | _ => first_failure es
                   end).
  { destruct Hm as [-> | [-> | ->]].
    - pose proof (run_all es ts (or_introl eq_refl) (conj Hpos Hmax)
                          (Z.le_refl _)) as [R _]. exact R.
    - destruct es as [|e es']; [congruence|].
      destruct (report_all_cons ts e es') as [-> _].
      destruct (report_fields ts e) as (_ & _ & _ & He & Hf).
      simpl in He, Hf.
      assert (H' : ts_mode (fst (report ts e)) = modeDone \/
                   (ts_mode (fst (report ts e)) = modeRace /\
                    ts_first (fst (report ts e)) = false)).
      { destruct (report_finishes ts e) as [[_ H1] | (_ & _ & H1 & _)];
          auto. }
      destruct (settled es' _ H') as [S1 _]. simpl. congruence.
    - pose proof (run_all es ts (or_intror eq_refl) (conj Hpos Hmax)
                          (Z.le_refl _)) as [R _]. exact R. }
  split; [exact Haw|].
  destruct (drain es ts) as [D1 D2]; simpl; auto; try lia.
  - destruct Hm as [-> | [-> | ->]]; discriminate.
  - destruct Hm as [-> | [-> | ->]]; discriminate.
  - intros ->. rewrite Hfinal. auto.
  - split; [exact D1|]. rewrite D2, Hfinal. reflexivity.
Qed.

Lemma orchestration_completes_witness :
  ts_mode (New [Noop]) = modeInit /\ ts_err (New [Noop]) = None /\
  (modeRepeat = modeRun \/ modeRepeat = modeRace \/ modeRepeat = modeRepeat) /\
  [None; Some Canceled] <> [] /\
  len [None; Some Canceled] =
    len (ts_pending (New [Noop]) ++ synthetic (Some modeRepeat)) /\
  len [None; Some Canceled] <= int_max /\
  (modeRepeat = modeRepeat ->
   first_failure [None; Some Canceled] <> None) /\
  sends (snd (report_all (fst (fst (do (New [Noop]) Background modeRepeat)))
                         [None; Some Canceled])) = [Some Canceled].
Proof.
  assert (Hm : modeRepeat = modeRun \/ modeRepeat = modeRace \/
               modeRepeat = modeRepeat) by (right; right; reflexivity).
  assert (Hne : [None; Some Canceled] <> []) by discriminate.
  assert (Hmax : len [None; Some Canceled] <= int_max)
    by (intro Hc; discriminate Hc).
  assert (Hrep : modeRepeat = modeRepeat ->
                 first_failure [None; Some Canceled] <> None)
    by (intros _; discriminate).
  destruct (orchestration_completes (New [Noop]) Background modeRepeat
              [None; Some Canceled] eq_refl eq_refl Hm Hne eq_refl Hmax Hrep)
    as (_ & _ & H3).
  exact (conj eq_refl (conj eq_refl (conj Hm (conj Hne (conj eq_refl
           (conj Hmax (conj Hrep H3))))))).
Defined.

(** X8.  A [Run] that failed with [ErrNoTasks] leaves an orchestrator that
    still takes tasks.  Tasks added to it are started, against the derived
    context that the failed [Run] has already cancelled; when all of them
    have reported, the orchestrator goes to [modeDone] and sends their
    first failure, or nil, on [done], where no caller waits. *)
Theorem Add_after_NoTasks
        (ctx : Context) (tasks : list Task) (es : list error) :
  tasks <> [] -> len es = len tasks -> len tasks <= int_max ->
  snd (Run (New []) ctx) = Returns (Some ErrNoTasks) /\
  snd (fst (Run (New []) ctx)) = [Cancel] /\
  snd (Add (fst (fst (Run (New []) ctx))) tasks) =
    map (Go (Some (WithCancel ctx))) tasks /\
  ts_mode (fst (report_all (fst (Add (fst (fst (Run (New []) ctx))) tasks))
                           es)) = modeDone /\
  sends (snd (report_all (fst (Add (fst (fst (Run (New []) ctx))) tasks))
                         es)) = [first_failure es].
Proof.
  intros Hne Hl Hmax.
  do 3 (split; [reflexivity|]).
  unfold Run, do, Add; simpl.
  assert (Hpos : 0 <= len tasks) by (unfold len; lia).
  assert (Hw : wrap (len tasks) = len tasks)
    by (apply wrap_small; unfold in_int, int_min, int_max in *; lia).
  rewrite Hw.
  set (ts := set_running (len tasks) _).
  assert (Hes : es <> []).
  { destruct es; [|discriminate]. destruct tasks; [congruence|].
    unfold len in Hl. simpl in Hl. lia. }
  assert (Hfinal : ts_err (fst (report_all ts es)) = first_failure es).
  { assert (Hb : 0 <= ts_running ts <= int_max) by (simpl; lia).
    assert (Hle : len es <= ts_running ts) by (simpl; lia).
    pose proof (run_all es ts (or_introl eq_refl) Hb Hle) as [R _].
    exact R. }
  destruct (drain es ts) as [D1 D2]; simpl; auto; try lia;
    try discriminate.
  split; [exact D1|]. rewrite D2, Hfinal. reflexivity.
Qed.

Lemma Add_after_NoTasks_witness :
  [Noop] <> [] /\ len [boom] = len [Noop] /\ len [Noop] <= int_max /\
  sends (snd (report_all (fst (Add (fst (fst (Run (New []) Background)))
                                   [Noop])) [boom])) = [boom].
Proof.
  assert (Hne : [Noop] <> []) by discriminate.
  assert (Hmax : len [Noop] <= int_max) by (intro Hc; discriminate Hc).
  destruct (Add_after_NoTasks Background [Noop] [boom] Hne eq_refl Hmax)
    as (_ & _ & _ & _ & H5).
  exact (conj Hne (conj eq_refl (conj Hmax H5))).
Defined.

End Completion.

(** * The functions of the package, the panic barrier and the errors *)

Section Package.

Lemma start_fresh (tasks : list Task) (ctx : Context) (m : mode) :
  m = modeRun \/ m = modeRace ->
  (snd (do (New tasks) ctx m) = Returns (Some ErrNoTasks) <-> tasks = []) /\
  (tasks <> [] -> snd (do (New tasks) ctx m) = Awaits) /\
  Permutation (launched (snd (fst (do (New tasks) ctx m)))) tasks /\
  (forall x c, In x (snd (fst (do (New tasks) ctx m))) ->
     launch_ctx x = Some c -> c = Some (WithCancel ctx)).
Proof.
  intros Hm.
  destruct (do_Init (New tasks) ctx m eq_refl) as (_ & _ & _ & _ & D5 & D6).
  assert (Hsyn : ts_pending (New tasks) ++ synthetic (Some m) = tasks)
    by (destruct Hm as [-> | ->]; simpl; apply app_nil_r).
  rewrite Hsyn in D5.
  split; [|split; [|split; [|exact D6]]].
  - unfold do; simpl. destruct Hm as [-> | ->]; simpl;
      destruct tasks; simpl; split; congruence.
  - intros Hne. unfold do; simpl. destruct Hm as [-> | ->]; simpl;
      destruct tasks; simpl; congruence.
  - rewrite D5. destruct tasks as [|t0 rest]; simpl; [constructor|].
    apply Permutation_sym, Permutation_cons_append.
Qed.

(** X9.  The functions [Run] and [Race] of the package fail with
    [ErrNoTasks] exactly when they are given no task.  Given tasks, they
    wait on [done], having started each of the tasks once, all of them
    against the one context derived from the context of the caller. *)
Theorem package_start (ctx : Context) (tasks : list Task) :
  ((snd (Pkg.Run ctx tasks) = Returns (Some ErrNoTasks) <-> tasks = []) /\
   (tasks <> [] -> snd (Pkg.Run ctx tasks) = Awaits) /\
   Permutation (launched (snd (fst (Pkg.Run ctx tasks)))) tasks /\
   (forall x c, In x (snd (fst (Pkg.Run ctx tasks))) ->
      launch_ctx x = Some c -> c = Some (WithCancel ctx))) /\
  ((snd (Pkg.Race ctx tasks) = Returns (Some ErrNoTasks) <-> tasks = []) /\
   (tasks <> [] -> snd (Pkg.Race ctx tasks) = Awaits) /\
   Permutation (launched (snd (fst (Pkg.Race ctx tasks)))) tasks /\
   (forall x c, In x (snd (fst (Pkg.Race ctx tasks))) ->
      launch_ctx x = Some c -> c = Some (WithCancel ctx))).
Proof.
  split.
  - apply (start_fresh tasks ctx modeRun). left; reflexivity.
  - apply (start_fresh tasks ctx modeRace). right; reflexivity.
Qed.

(** X10.  A task that panics with a value, under the barrier, fails the
    [Run] or [Repeat] it belongs to, if no failure was recorded before:
    the panic stops in [run], the recorded result becomes an error whose
    [Stack()] is the snapshot taken in the deferred function and whose
    [Error()] is the text "caught panic: " followed by the value, and
    [cancel] is called for the other tasks. *)
Theorem caught_panic_fails_Run
        (stack : list Byte.byte) (ts : Tasks) (v : string) :
  ts_mode ts = modeRun \/ ts_mode ts = modeRepeat ->
  ts_err ts = None ->
  snd (run false stack ts (Panicked (Some v))) = None /\
  In Cancel (snd (fst (run false stack ts (Panicked (Some v))))) /\
  exists e,
    ts_err (fst (fst (run false stack ts (Panicked (Some v))))) = Some e /\
    Stack e = Some stack /\
    Error e = ("caught panic: " ++ v)%string.
Proof.
  intros Hm He. rewrite run_catches_panic. simpl.
  set (e := ErrPanic (Some v) stack).
  destruct (report_fields ts (Some e)) as (_ & _ & _ & He1 & _).
  split; [reflexivity|]. split.
  - rewrite report_effects. apply in_or_app. left.
    destruct Hm as [-> | ->]; left; reflexivity.
  - exists e. split; [|split; reflexivity].
    rewrite He1, He. destruct Hm as [-> | ->]; reflexivity.
Qed.

Lemma caught_panic_fails_Run_witness :
  (ts_mode run1 = modeRun \/ ts_mode run1 = modeRepeat) /\
  ts_err run1 = None /\
  snd (run false [] run1 (Panicked (Some "oops"%string))) = None.
Proof.
  assert (Hm : ts_mode run1 = modeRun \/ ts_mode run1 = modeRepeat)
    by (left; reflexivity).
  exact (conj Hm (conj eq_refl
           (proj1 (caught_panic_fails_Run [] run1 "oops" Hm eq_refl)))).
Defined.

(** X11.  In the other version of the file a [Run] or [Race] with nothing
    pending returns nil and sets [modeDone] without deriving a context.
    Tasks added afterwards are counted and started all the same, against
    the nil context that is still stored in the orchestrator, and every
    later start is rejected with [ErrFinished]. *)
Theorem V1_Add_after_empty_start
        (ts : Tasks) (ctx ctx' : Context) (m m' : mode) (tasks : list Task) :
  ts_mode ts = modeInit -> ts_pending ts = [] -> ts_ctx ts = None ->
  m <> modeRepeat ->
  snd (V1.do ts ctx m) = Returns None /\
  snd (fst (V1.do ts ctx m)) = [] /\
  Add (fst (fst (V1.do ts ctx m))) tasks =
    (set_running (wrap (ts_running ts + len tasks))
                 (fst (fst (V1.do ts ctx m))),
     map (Go None) tasks) /\
  V1.do (fst (Add (fst (fst (V1.do ts ctx m))) tasks)) ctx' m' =
    (fst (Add (fst (fst (V1.do ts ctx m))) tasks), [],
     Returns (Some ErrFinished)).
Proof.
  intros Hm Hp Hc Hne.
  assert (Hdo : V1.do ts ctx m =
                (mkTasks modeDone [] (ts_running ts) (ts_first ts) (ts_err ts)
                         None (ts_cancel ts) (ts_done ts), [], Returns None)).
  { unfold V1.do. rewrite Hm, Hp, <- Hc. simpl.
    destruct m; simpl; auto. congruence. }
  rewrite Hdo. simpl. repeat split; reflexivity.
Qed.

Lemma V1_Add_after_empty_start_witness :
  ts_mode (New []) = modeInit /\ ts_pending (New []) = [] /\
  ts_ctx (New []) = None /\ modeRun <> modeRepeat /\
  snd (Add (fst (fst (V1.do (New []) Background modeRun))) [Noop]) =
    [Go None Noop].
Proof.
  assert (Hne : modeRun <> modeRepeat) by discriminate.
  destruct (V1_Add_after_empty_start (New []) Background Background
              modeRun modeRun [Noop] eq_refl eq_refl eq_refl Hne)
    as (_ & _ & H3 & _).
  exact (conj eq_refl (conj eq_refl (conj eq_refl (conj Hne
           (f_equal snd H3))))).
Defined.

End Package.

(** * The tasks of the package *)

Section Bodies.

Lemma first_failure_In (es : list error) (e : err_value) :
  In (Some e) es -> first_failure es <> None.
Proof.
  induction es as [|[x|] es IH]; simpl; intros H.
  - contradiction.
  - discriminate.
  - destruct H as [H | H]; [discriminate | auto].
Qed.

(** X12.  [Timer] and [Sleep] are the same task.  It blocks exactly while
    the timer has not fired and the context is not done; it returns nil
    only when the timer has fired; and what it returns when it does not
    return nil is the error of the context, so that a cancelled timer
    fails the [Run] it is part of. *)
Theorem Timer_outcomes (fired : bool) (ctx : error) (first : bool) :
  Body.Sleep fired ctx first = Body.Timer fired ctx first /\
  (Body.Timer fired ctx first = None <-> fired = false /\ ctx = None) /\
  (forall r, Body.Timer fired ctx first = Some r ->
     (r = None -> fired = true) /\
     (r <> None -> r = ctx) /\
     (fired = false -> r = ctx) /\
     (ctx = None -> r = None)).
Proof.
  split; [reflexivity|]. split.
  - unfold Body.Timer, Body.select2.
    destruct fired, ctx as [e|], first; simpl; split;
      try discriminate; auto; intros [? ?]; discriminate.
  - intros r. unfold Body.Timer, Body.select2.
    destruct fired, ctx as [e|], first; simpl; intros Hr;
      try discriminate; injection Hr as <-;
      repeat split; auto; try discriminate; congruence.
Qed.

(** X13.  [Wait], the task made by [Context] and the task made by
    [Timeout] never return a success.  Each blocks exactly while none of
    the contexts it looks at is done and, for [Timeout], the deadline has
    not passed; what it returns is the error of one of these contexts, or
    [DeadlineExceeded] for a [Timeout] whose deadline has passed.  So the
    report of such a task is a first failure for the orchestration to
    record. *)
Theorem blocking_tasks_fail
        (ctx ctx2 : error) (expired first : bool) (es : list error) :
  (Body.Wait ctx = None <-> ctx = None) /\
  (forall r, Body.Wait ctx = Some r -> r = ctx /\ r <> None) /\
  (Body.Context ctx ctx2 first = None <-> ctx = None /\ ctx2 = None) /\
  (forall r, Body.Context ctx ctx2 first = Some r ->
     r <> None /\ (r = ctx \/ r = ctx2)) /\
  (Body.Timeout expired ctx first = None <->
     expired = false /\ ctx = None) /\
  (forall r, Body.Timeout expired ctx first = Some r ->
     r <> None /\
     (r = ctx \/ (r = Some DeadlineExceeded /\ expired = true))) /\
  (forall r,
     Body.Wait ctx = Some r \/ Body.Context ctx ctx2 first = Some r \/
     Body.Timeout expired ctx first = Some r ->
     In r es -> first_failure es <> None).
Proof.
  assert (HW : forall r, Body.Wait ctx = Some r -> r = ctx /\ r <> None).
  { intros r. unfold Body.Wait. destruct ctx; [|discriminate].
    intros H; injection H as <-. split; [reflexivity | discriminate]. }
  assert (HC : forall r, Body.Context ctx ctx2 first = Some r ->
                 r <> None /\ (r = ctx \/ r = ctx2)).
  { intros r. unfold Body.Context, Body.select2.
    destruct ctx, ctx2, first; simpl; intros H; try discriminate;
      injection H as <-; split; auto; discriminate. }
  assert (HT : forall r, Body.Timeout expired ctx first = Some r ->
                 r <> None /\
                 (r = ctx \/ (r = Some DeadlineExceeded /\ expired = true))).
  { intros r.
    unfold Body.Timeout, Body.Wait, Body.WithTimeout, Body.select2.
    destruct ctx, expired, first; simpl; intros H; try discriminate;
      injection H as <-; split; auto; discriminate. }
  split; [|split; [exact HW|split; [|split; [exact HC|split;
    [|split; [exact HT|]]]]]].
  - unfold Body.Wait. destruct ctx; split; congruence.
  - unfold Body.Context, Body.select2.
    destruct ctx, ctx2, first; simpl; split; try discriminate; auto;
      intros [? ?]; discriminate.
  - unfold Body.Timeout, Body.Wait, Body.WithTimeout, Body.select2.
    destruct ctx, expired, first; simpl; split; try discriminate; auto;
      intros [? ?]; discriminate.
  - intros r Hr Hin.
    assert (Hne : r <> None).
    { destruct Hr as [Hr | [Hr | Hr]];
        [apply HW in Hr | apply HC in Hr | apply HT in Hr]; tauto. }
    destruct r as [e|]; [|congruence].
    apply (first_failure_In es e Hin).
Qed.

(** X14.  [Interrupt] returns an [ErrSignal] only for [SIGTERM], [SIGINT]
    or [SIGHUP], and only for a signal that came in; an error of another
    kind that it returns is the error of its context; it blocks exactly
    while its context is not done and none of the three signals has come
    in.  [Signal] with no signal named, on the other hand, returns on the
    first signal of any kind. *)
Theorem Interrupt_signals
        (incoming : list nat) (ctx : error) (first : bool) (s0 : nat) :
  (forall s, Body.Interrupt incoming ctx first = Some (Body.ErrSignal s) ->
     (s = Body.SIGTERM \/ s = Body.SIGINT \/ s = Body.SIGHUP) /\
     In s incoming) /\
  (forall e, Body.Interrupt incoming ctx first = Some (Body.CtxErr e) ->
     ctx = Some e) /\
  (Body.Interrupt incoming ctx first = None <->
     ctx = None /\
     forall s, In s incoming ->
       s <> Body.SIGTERM /\ s <> Body.SIGINT /\ s <> Body.SIGHUP) /\
  Body.Signal [] (s0 :: incoming) None first = Some (Body.ErrSignal s0).
Proof.
  unfold Body.Interrupt, Body.Signal, Body.select2.
  destruct (Body.Notify [Body.SIGTERM; Body.SIGINT; Body.SIGHUP] incoming)
    as [n|] eqn:HN.
  - apply find_some in HN. destruct HN as [Hin Hf]. simpl in Hf.
    assert (Hn : n = Body.SIGTERM \/ n = Body.SIGINT \/ n = Body.SIGHUP).
    { rewrite !orb_true_iff in Hf.
      destruct Hf as [Hf | [Hf | [Hf | Hf]]]; try discriminate;
        apply Nat.eqb_eq in Hf; auto. }
    repeat split.
    + destruct ctx, first; simpl in H; try discriminate;
        injection H as <-; exact Hn.
    + destruct ctx, first; simpl in H; try discriminate;
        injection H as <-; exact Hin.
    + intros e H. destruct ctx, first; simpl in H; try discriminate;
        injection H as <-; reflexivity.
    + destruct ctx; simpl in H; discriminate.
    + destruct ctx; simpl in H; discriminate.
    + destruct ctx; simpl in H; discriminate.
    + destruct ctx; simpl in H; discriminate.
    + intros [_ Hall]. exfalso. destruct (Hall n Hin) as (A & B & C).
      destruct Hn as [Hn | [Hn | Hn]]; auto.
  - repeat split.
    + destruct ctx; simpl in H; discriminate.
    + destruct ctx; simpl in H; discriminate.
    + intros e H. destruct ctx; simpl in H; [|discriminate].
      injection H as <-; reflexivity.
    + destruct ctx; simpl in H; [discriminate | reflexivity].
    + pose proof (find_none _ _ HN s H0) as Hf. simpl in Hf.
      intros ->. discriminate.
    + pose proof (find_none _ _ HN s H0) as Hf. simpl in Hf.
      intros ->. discriminate.
    + pose proof (find_none _ _ HN s H0) as Hf. simpl in Hf.
      intros ->. discriminate.
    + intros [-> _]. reflexivity.
Qed.

End Bodies.

(** * Two more edges *)

Section Edges.

Lemma report_all_running (es : list error) :
  forall ts,
    len es <= ts_running ts <= int_max ->
    ts_running (fst (report_all ts es)) = ts_running ts - len es.
Proof.
  induction es as [|e es IH]; intros ts Hr.
  - unfold len; simpl. lia.
  - destruct (report_all_cons ts e es) as [-> _].
    destruct (report_fields ts e) as (Hrun & _).
    assert (Hlen : len (e :: es) = len es + 1)
      by (unfold len; simpl Datatypes.length; lia).
    assert (Hpos : 0 <= len es) by (unfold len; lia).
    rewrite wrap_small in Hrun
      by (unfold in_int, int_min, int_max in *; lia).
    rewrite IH by (rewrite Hrun; lia). lia.
Qed.

(** X15.  In the other version of the file nothing holds a [Repeat] open
    but the mode: the start launches the pending tasks and no [Wait] task;
    when all of them have reported success the counter is zero and the
    orchestrator idles in [modeRepeat], nothing sent; a task added then
    and reporting a failure ends the orchestration, and that failure is
    what is sent on [done]. *)
Theorem V1_Repeat_idles
        (ts0 : Tasks) (ctx : Context) (es : list error) (t : Task)
        (e : err_value) :
  ts_mode ts0 = modeInit -> ts_err ts0 = None ->
  first_failure es = None -> len es = len (ts_pending ts0) ->
  len es <= int_max ->
  snd (V1.do ts0 ctx modeRepeat) = Awaits /\
  launched (snd (fst (V1.do ts0 ctx modeRepeat))) = ts_pending ts0 /\
  ts_mode (fst (report_all (fst (fst (V1.do ts0 ctx modeRepeat))) es)) =
    modeRepeat /\
  ts_running (fst (report_all (fst (fst (V1.do ts0 ctx modeRepeat))) es)) =
    0 /\
  sends (snd (report_all (fst (fst (V1.do ts0 ctx modeRepeat))) es)) = [] /\
  ts_mode (fst (report
     (fst (Add (fst (report_all (fst (fst (V1.do ts0 ctx modeRepeat))) es))
               [t])) (Some e))) = modeDone /\
  sends (snd (report
     (fst (Add (fst (report_all (fst (fst (V1.do ts0 ctx modeRepeat))) es))
               [t])) (Some e))) = [Some e].
Proof.
  intros H0 He0 Hff Hl Hmax.
  assert (Hdo : V1.do ts0 ctx modeRepeat =
                (mkTasks modeRepeat [] (len es) true None
                         (Some (WithCancel ctx))
                         (Some (CancelOf (WithCancel ctx)))
                         (Some (MakeChan 1)),
                 map (Go (Some (WithCancel ctx))) (ts_pending ts0), Awaits)).
  { unfold V1.do. rewrite H0, He0, Hl. simpl.
    rewrite andb_false_r. reflexivity. }
  rewrite Hdo. simpl fst. simpl snd. rewrite launched_map_go.
  set (ts := mkTasks modeRepeat [] (len es) true None (Some (WithCancel ctx))
                     (Some (CancelOf (WithCancel ctx))) (Some (MakeChan 1))).
  assert (Hpos : 0 <= len es) by (unfold len; lia).
  destruct (repeat_stays es ts eq_refl eq_refl Hff) as (R1 & R2 & R3).
  assert (R4 : ts_running (fst (report_all ts es)) = 0)
    by (rewrite report_all_running; simpl; lia).
  do 2 (split; [reflexivity|]).
  split; [exact R1|]. split; [exact R4|]. split; [exact R3|].
  set (ts2 := fst (report_all ts es)) in *.
  assert (HA : fst (Add ts2 [t]) = set_running 1 ts2).
  { unfold Add. rewrite R1, R4. simpl. reflexivity. }
  rewrite HA.
  destruct (report_fields (set_running 1 ts2) (Some e))
    as (_ & _ & _ & He1 & _).
  simpl in He1. rewrite R1, R2 in He1. simpl in He1.
  assert (Hd : ts_mode (fst (report (set_running 1 ts2) (Some e))) =
               modeDone).
  { apply report_completes; simpl.
    - rewrite R1. discriminate.
    - intros Hc. discriminate Hc.
    - intros _. rewrite He1. discriminate. }
  split; [exact Hd|].
  destruct (report_finishes (set_running 1 ts2) (Some e))
    as [[_ Hm] | (Hs & _)].
  - simpl in Hm. rewrite R1 in Hm. congruence.
  - rewrite Hs, He1. reflexivity.
Qed.

Lemma V1_Repeat_idles_witness :
  ts_mode (New [Noop]) = modeInit /\ ts_err (New [Noop]) = None /\
  first_failure [None] = None /\
  len [@None err_value] = len (ts_pending (New [Noop])) /\
  len [@None err_value] <= int_max /\
  ts_mode (fst (report_all
                  (fst (fst (V1.do (New [Noop]) Background modeRepeat)))
                  [None])) = modeRepeat.
Proof.
  assert (Hmax : len [@None err_value] <= int_max)
    by (intro Hc; discriminate Hc).
  destruct (V1_Repeat_idles (New [Noop]) Background [None] Noop Canceled
              eq_refl eq_refl eq_refl eq_refl Hmax)
    as (_ & _ & H3 & _).
  exact (conj eq_refl (conj eq_refl (conj eq_refl (conj eq_refl
           (conj Hmax H3))))).
Defined.

(** X16.  With the barrier off, a panicking task is still reported before
    its panic goes on, and it is reported as a success: the body never
    assigned [err].  When it was the last running task of a [Run] with no
    failure recorded, the orchestrator goes to [modeDone] and sends nil on
    [done] while the panic unwinds the goroutine with its value. *)
Theorem uncaught_panic_reports_success
        (stack : list Byte.byte) (ts : Tasks) (p : any) :
  ts_mode ts = modeRun -> ts_err ts = None -> ts_running ts = 1 ->
  snd (run true stack ts (Panicked p)) = Some p /\
  ts_mode (fst (fst (run true stack ts (Panicked p)))) = modeDone /\
  ts_err (fst (fst (run true stack ts (Panicked p)))) = None /\
  snd (fst (run true stack ts (Panicked p))) = [Send None].
Proof.
  intros Hm He Hr. rewrite run_propagates_panic. simpl.
  destruct ts as [m pend r f err c cf d]. simpl in *. subst.
  repeat split; reflexivity.
Qed.

Lemma uncaught_panic_reports_success_witness :
  ts_mode run1 = modeRun /\ ts_err run1 = None /\ ts_running run1 = 1 /\
  snd (fst (run true [] run1 (Panicked None))) = [Send None].
Proof.
  destruct (uncaught_panic_reports_success [] run1 None
              eq_refl eq_refl eq_refl) as (_ & _ & _ & H4).
  exact (conj eq_refl (conj eq_refl (conj eq_refl H4))).
Defined.

End Edges.
